(** * Freshmaker: message classification and the signed-RPM rebuild handler

    A shallow embedding of

    - [freshmaker/events.py]              (the event classes and the parser registry),
    - [freshmaker/parsers/gitreceive.py]  (the dist-git parser),
    - [freshmaker/handlers/brew/sign_rpm.py] (the handler that plans image rebuilds),

    followed by the properties of these functions that the specification
    states.  Python values are modelled by the inductive type [pyval];
    exceptions by the [result] type; the database session, the logger and the
    answers of the compose service by an explicit handler state. *)

From Stdlib Require Import ZArith List String Ascii Bool Lia Permutation DecimalString.
From stdpp Require Import base gmap strings list.

Open Scope string_scope.
Open Scope list_scope.
Set Warnings "-register-all".

(* ===================================================================== *)
(** * Python values and built-ins *)
(* ===================================================================== *)

Module Py.

(** The payload of a message is decoded JSON: [None], booleans, integers,
    strings, lists and dicts with string keys.  A dict keeps its items in
    insertion order; [dict_lookup] reads the first binding of a key. *)
Inductive pyval : Type :=
| PNone
| PBool (b : bool)
| PInt (z : Z)
| PStr (s : string)
| PList (l : list pyval)
| PDict (d : list (string * pyval)).

Inductive exn : Type :=
| AttributeError
| IndexError
| ValueError (msg : string).

(** The outcome of a call: a value or a raised exception. *)
Inductive result (A : Type) : Type :=
| Ok (a : A)
| Raise (e : exn).
Arguments Ok {A} a.
Arguments Raise {A} e.

(** Sequencing: an exception raised by the first call ends the function. *)
#[export] Instance result_bind : MBind result := fun A B k r =>
  match r with
  | Ok a => k a
  | Raise e => Raise e
  end.

(** [bool(v)]: the truth value Python gives to [v] in [if not v]. *)
Definition truthy (v : pyval) : bool :=
  match v with
  | PNone => false
  | PBool b => b
  | PInt z => negb (z =? 0)%Z
  | PStr s => negb (s =? "")%string
  | PList l => match l with [] => false | _ => true end
  | PDict d => match d with [] => false | _ => true end
  end.

Fixpoint dict_lookup (key : string) (d : list (string * pyval)) : option pyval :=
  match d with
  | [] => None
  | (k, v) :: d' => if (k =? key)%string then Some v else dict_lookup key d'
  end.

(** [d.get(key)] on a dict: a missing key gives [None]. *)
Definition entry (d : list (string * pyval)) (key : string) : pyval :=
  match dict_lookup key d with
  | Some x => x
  | None => PNone
  end.

(** [v.get(key)] on any value: only a dict has a [get] method. *)
Definition get (v : pyval) (key : string) : result pyval :=
  match v with
  | PDict d => Ok (entry d key)
  | _ => Raise AttributeError
  end.

(** [str(z)] for an integer. *)
Definition str_int (z : Z) : string := NilZero.string_of_int (Z.to_int z).

Section Str.
(** [repr] of a list or a dict, Python's own rendering of containers. *)
Variable repr : pyval -> string.

(** [str(v)], what ["%s" % v] and ["{}".format(v)] insert. *)
Definition str (v : pyval) : string :=
  match v with
  | PNone => "None"
  | PBool true => "True"
  | PBool false => "False"
  | PInt z => str_int z
  | PStr s => s
  | PList _ | PDict _ => repr v
  end.
End Str.

(** [s.endswith(suffix)]. *)
Fixpoint endswith (s suffix : string) : bool :=
  (s =? suffix)%string ||
  match s with
  | EmptyString => false
  | String _ s' => endswith s' suffix
  end.

(** [s.lstrip(c)], [s.rstrip(c)] and [s.strip(c)] for a one-character [c]. *)
Fixpoint lstrip (c : ascii) (s : string) : string :=
  match s with
  | EmptyString => EmptyString
  | String a s' => if Ascii.eqb a c then lstrip c s' else s
  end.

Fixpoint rstrip (c : ascii) (s : string) : string :=
  match s with
  | EmptyString => EmptyString
  | String a s' =>
      match rstrip c s' with
      | EmptyString => if Ascii.eqb a c then EmptyString else String a EmptyString
      | r => String a r
      end
  end.

Definition strip (c : ascii) (s : string) : string := rstrip c (lstrip c s).

End Py.
Import Py.

(* ===================================================================== *)
(** * freshmaker/events.py *)
(* ===================================================================== *)

Module Events.

(** The event classes.  Every event carries the [msg_id] of [BaseEvent];
    the fields are the attributes set by each [__init__]. *)
Inductive BaseEvent : Type :=
| ModuleBuilt (msg_id module_build_id module_build_state module_name module_stream : pyval)
| ModuleMetadataUpdated (msg_id : pyval) (scm_url : string) (branch : pyval)
| TestingEvent (msg_id : pyval)
| DockerfileChanged (msg_id repo_url namespace repo branch rev : pyval)
| BrewSignRPMEvent (msg_id : pyval) (nvr : string).

(** The interface of [freshmaker.parsers.BaseParser]: a class attribute
    [name], the [topic_suffixes] it understands, and the two methods. *)
Record BaseParser : Type := {
  parser_name : string;
  topic_suffixes : list string;
  can_parse : string -> pyval -> bool;
  parse : string -> pyval -> result (option BaseEvent)
}.

(** [BaseEvent._parsers]: a dict from parser name to parser instance, kept as
    its items in insertion order. *)
Definition registry : Type := list (string * BaseParser).

(** [d[key] = value]: a key already present keeps its place. *)
Fixpoint dict_set (key : string) (p : BaseParser) (d : registry) : registry :=
  match d with
  | [] => [(key, p)]
  | (k, q) :: d' => if (k =? key)%string then (k, p) :: d' else (k, q) :: dict_set key p d'
  end.

Definition register_parser (parser_class : BaseParser) (_parsers : registry) : registry :=
  dict_set (parser_name parser_class) parser_class _parsers.

(** [BaseEvent._parsers.values()] *)
Definition values (_parsers : registry) : list BaseParser := map snd _parsers.

Section Registry.
Variable _parsers : registry.

(** [conf.messaging_topic_prefix] *)
Variable messaging_topic_prefix : list string.

Definition get_parsed_topics : list string :=
  let topic_suffixes := flat_map topic_suffixes (values _parsers) in
  map (fun '(pref, cat) => rstrip "." pref +:+ "." +:+ cat)
      (list_prod messaging_topic_prefix topic_suffixes).

(** The [for] loop of [from_fedmsg] over the remaining parsers. *)
Fixpoint from_fedmsg_loop (parsers : list BaseParser) (topic : string) (msg : pyval)
  : result (option BaseEvent) :=
  match parsers with
  | [] => Ok None
  | parser :: rest =>
      if negb (can_parse parser topic msg)
      then from_fedmsg_loop rest topic msg
      else parse parser topic msg
  end.

Definition from_fedmsg (topic : string) (msg : pyval) : result (option BaseEvent) :=
  from_fedmsg_loop (values _parsers) topic msg.
End Registry.

End Events.
Import Events.

(* ===================================================================== *)
(** * freshmaker/parsers/gitreceive.py *)
(* ===================================================================== *)

Module GitReceiveParser.

Section Parser.
(** [conf.git_base_url] *)
Variable git_base_url : string.
Variable repr : pyval -> string.

Definition name : string := "GitReceiveParser".
Definition topic_suffixes : list string := ["git.receive"].

Definition can_parse (topic : string) (msg : pyval) : bool :=
  if negb (existsb (fun s => endswith topic s) topic_suffixes)
  then false
  else true.

(** [namespace == "modules"] *)
Definition is_modules (namespace : pyval) : bool :=
  match namespace with
  | PStr s => (s =? "modules")%string
  | _ => false
  end.

(** The [log.debug] calls of [parse] do not change what it returns and
    are left out. *)
Definition parse (topic : string) (msg : pyval) : result (option BaseEvent) :=
  msg_id ← get msg "msg_id";
  msg_inner_msg ← get msg "msg";
  if negb (truthy msg_inner_msg) then Ok None else
  commit ← get msg_inner_msg "commit";
  if negb (truthy commit) then Ok None else
  namespace ← get commit "namespace";
  rev ← get commit "rev";
  repo ← get commit "repo";
  branch ← get commit "branch";
  if is_modules namespace then
    let scm_url := git_base_url +:+ "/" +:+ str repr namespace +:+ "/"
                   +:+ str repr repo +:+ ".git?#" +:+ str repr rev in
    Ok (Some (ModuleMetadataUpdated msg_id scm_url branch))
  else Ok None.

(** [GitReceiveParser()], the instance that [register_parser] stores. *)
Definition new : BaseParser :=
  {| Events.parser_name := name;
     Events.topic_suffixes := topic_suffixes;
     Events.can_parse := can_parse;
     Events.parse := parse |}.
End Parser.

End GitReceiveParser.

(* ===================================================================== *)
(** * freshmaker/handlers/brew/sign_rpm.py *)
(* ===================================================================== *)

Module BrewSignRPMHandler.

(** [freshmaker.types]: the kinds of artifact and the states of a build. *)
Inductive ArtifactType : Type := RPM | MODULE | IMAGE.
Inductive ArtifactBuildState : Type := PLANNED | BUILDING | DONE | FAILED.

(** An image as the inventory service returns it: [image["brew"]["build"]],
    [image["parent"]] ([None] for a base image), [image["repository"]] and
    [image["commit"]]. *)
Inductive ContainerImage : Type := Image {
  brew_build : string;
  parent : option ContainerImage;
  repository : string;
  commit : string
}.

(** An advisory as the release tracker returns it. *)
Record ErrataAdvisory : Type := {
  errata_id : Z;
  advisory_name : string
}.

(** A row of the builds table.  [id] is the row's position in the table;
    [dep_on] (the spec's [depends_on]) holds the id of the build it depends
    on; [build_id] is the spec's [external_build_id]; [build_args] is the
    dict that [json.dumps] serialises into the row. *)
Record ArtifactBuild : Type := {
  id : nat;
  name : string;
  type : ArtifactType;
  state : ArtifactBuildState;
  event : BaseEvent;
  dep_on : option nat;
  build_id : Z;
  build_args : option pyval
}.

(** A record of the logger: level, message and the arguments to be merged
    into the message. *)
Inductive level : Type := DEBUG | INFO | ERROR.
Inductive log_arg : Type :=
| LStr (s : string)
| LInt (z : Z)
| LStrs (l : list string)
| LAdvisories (l : list ErrataAdvisory).
Record log_record : Type := {
  levelname : level;
  msg : string;
  args : list log_arg
}.

Definition info (m : string) (a : list log_arg) : log_record :=
  {| levelname := INFO; msg := m; args := a |}.
Definition error (m : string) (a : list log_arg) : log_record :=
  {| levelname := ERROR; msg := m; args := a |}.

(** What the handler acts on: the builds table behind [db.session], the
    records logged so far, and the states that the compose service will
    answer to the coming [get_compose] calls. *)
Record world : Type := {
  db : list ArtifactBuild;
  log : list log_record;
  compose_states : list Z
}.

(** A handler method ends by returning, by raising, or is still inside its
    polling loop when the known answers of the compose service end. *)
Inductive outcome (A : Type) : Type :=
| Done (a : A)
| Raised (e : exn)
| Polling.
Arguments Done {A} a.
Arguments Raised {A} e.
Arguments Polling {A}.

Definition handler (A : Type) : Type := world -> outcome A * world.

#[export] Instance handler_ret : MRet handler := fun A a w => (Done a, w).
#[export] Instance handler_bind : MBind handler := fun A B k m w =>
  match m w with
  | (Done a, w') => k a w'
  | (Raised e, w') => (Raised e, w')
  | (Polling, w') => (Polling, w')
  end.

Definition lift {A} (r : result A) : handler A := fun w =>
  match r with
  | Ok a => (Done a, w)
  | Raise e => (Raised e, w)
  end.

Definition logs (l : list log_record) : handler unit := fun w =>
  (Done tt, {| db := db w; log := log w ++ l; compose_states := compose_states w |}).

(** [event.nvr] *)
Definition event_nvr (e : BaseEvent) : result string :=
  match e with
  | BrewSignRPMEvent _ nvr => Ok nvr
  | _ => Raise AttributeError
  end.

Definition can_handle (e : BaseEvent) : bool :=
  match e with
  | BrewSignRPMEvent _ _ => true
  | _ => false
  end.

(** ** [_record_batches] *)

(** Modelled from the spec: [BaseHandler.record_build(event, name, type,
    external_id, depends_on, initial_state)] is not among the sources; it
    creates and persists one ArtifactBuild with the fields it is given and
    returns it.  The new row is appended to the table and is referred to by
    its id. *)
Definition record_build (table : list ArtifactBuild) (ev : BaseEvent) (nm : string)
  (ty : ArtifactType) (bid : Z) (dep : option nat) (st : ArtifactBuildState)
  : list ArtifactBuild * nat :=
  (table ++ [ {| id := length table; name := nm; type := ty; state := st; event := ev;
                 dep_on := dep; build_id := bid; build_args := None |} ],
   length table).

(** [build.build_args = ...; db.session.commit()] on the row [build]. *)
Definition set_build_args (table : list ArtifactBuild) (build : nat) (a : pyval)
  : list ArtifactBuild :=
  match table !! build with
  | Some row =>
      <[build := {| id := id row; name := name row; type := type row; state := state row;
                    event := event row; dep_on := dep_on row; build_id := build_id row;
                    build_args := Some a |}]> table
  | None => table
  end.

Definition parent_name (image : ContainerImage) : option string :=
  match parent image with
  | Some p => Some (brew_build p)
  | None => None
  end.

Definition opt_str (o : option string) : pyval :=
  match o with
  | Some s => PStr s
  | None => PNone
  end.

(** The body of the inner loop: [builds] is the temporary dict from build
    name to the ArtifactBuild recorded for it. *)
Definition record_image (ev : BaseEvent) (st : list ArtifactBuild * gmap string nat)
  (image : ContainerImage) : list ArtifactBuild * gmap string nat :=
  let '(table, builds) := st in
  let name := brew_build image in
  let parent_name := parent_name image in
  let dep_on := match parent_name with
                | Some p => builds !! p
                | None => None
                end in
  let '(table, build) := record_build table ev name IMAGE 0 dep_on PLANNED in
  let build_args := PDict [("repository", PStr (repository image));
                           ("commit", PStr (commit image));
                           ("parent", opt_str parent_name)] in
  let table := set_build_args table build build_args in
  (table, <[name := build]> builds).

Definition record_batch (ev : BaseEvent) (st : list ArtifactBuild * gmap string nat)
  (batch : list ContainerImage) : list ArtifactBuild * gmap string nat :=
  fold_left (record_image ev) batch st.

Definition record_batches (batches : list (list ContainerImage)) (ev : BaseEvent)
  (table : list ArtifactBuild) : list ArtifactBuild :=
  fst (fold_left (record_batch ev) batches (table, ∅)).

Definition _record_batches (batches : list (list ContainerImage)) (ev : BaseEvent)
  : handler unit := fun w =>
  (Done tt, {| db := record_batches batches ev (db w); log := log w;
               compose_states := compose_states w |}).

(** ** [_log_batches] *)

Definition log_image (image : ContainerImage) : log_record :=
  let based_on := match parent image with
                  | Some p => "based on " +:+ brew_build p
                  | None => "base image"
                  end in
  info ("      - " +:+ repository image +:+ "#" +:+ commit image
        +:+ " (" +:+ based_on +:+ ")") [].

Fixpoint log_batches_from (i : nat) (batches : list (list ContainerImage)) : list log_record :=
  match batches with
  | [] => []
  | batch :: rest =>
      info "   Batch %d (%d images):" [LInt (Z.of_nat i); LInt (Z.of_nat (length batch))]
        :: map log_image batch ++ log_batches_from (S i) rest
  end.

Definition _log_batches (batches : list (list ContainerImage)) : handler unit :=
  logs (info "Found docker images to rebuild in following order:" []
          :: log_batches_from 0 batches).

(** ** The collaborators of the handler *)

Section Handler.

(** The release tracker ([Errata]), the rule engine behind
    [BaseHandler.allow_build], the content-set resolver ([Pulp]), the image
    inventory ([LightBlue]), the build system ([koji_service]) and the
    compose service ([ODCS]) are outside this module; the handler is
    parametrised by what they answer. *)
Variable advisories_from_event : BaseEvent -> list ErrataAdvisory.
Variable allow_build : ArtifactType -> string -> bool.
Variable builds_signed : Z -> bool.
Variable get_pulp_repository_ids : Z -> list string.
Variable get_content_set_by_repo_ids : list string -> list string.
Variable find_images_to_rebuild : string -> list string -> list (list ContainerImage).
(** [session.get_build_rpms(nvr, arches=...)]: the names of the RPMs. *)
Variable get_build_rpms : string -> option string -> list string.
(** [service.session.listTags(nvr)]: the names of the tags. *)
Variable listTags : string -> list string.
(** [service.session.listTagged(tag, latest=True, package=...)]: the NVRs. *)
Variable listTagged : string -> string -> list string.
(** [koji.parse_NVR(nvr)['name']] *)
Variable parse_NVR_name : string -> string.
(** [odcs.server_url], [odcs.api_version] and the answer of
    [odcs.new_compose(source, 'tag', packages=...)]: its ['id'] and
    ['result_repo']. *)
Variable odcs_server_url : string.
Variable odcs_api_version : string.
Variable new_compose : string -> list string -> Z * string.
(** [list(set(xs))]: the order in which Python iterates over the set built
    from [xs].  The language leaves it open. *)
Variable set_iteration : list string -> list string.

(** ** [_find_images_to_rebuild] *)

Definition _find_build_srpm_name (build_nvr : string) : result string :=
  match get_build_rpms build_nvr (Some "src") with
  | [] => Raise (ValueError ("Build " +:+ build_nvr +:+
            " does not have a SRPM, although this should not happen in practice."))
  | rpm :: _ => Ok rpm
  end.

(** The advisories left by the configuration filter. *)
Definition eligible_advisories (ev : BaseEvent) : list ErrataAdvisory :=
  List.filter (fun advisory => allow_build IMAGE (advisory_name advisory))
              (advisories_from_event ev).

(** [list(set(chain(...)))] over the lists
    [errata.get_pulp_repository_ids(advisory.errata_id)], one for each
    advisory. *)
Definition pulp_repo_ids (advisories : list ErrataAdvisory) : list string :=
  set_iteration
    (concat (map (fun advisory => get_pulp_repository_ids (errata_id advisory)) advisories)).

Definition _find_images_to_rebuild (ev : BaseEvent) : handler (list (list ContainerImage)) :=
  let advisories := eligible_advisories ev in
  match advisories with
  | [] =>
      logs [info "No advisories found suitable for rebuilding Docker images" []];;
      mret []
  | _ =>
      if negb (forallb (fun advisory => builds_signed (errata_id advisory)) advisories)
      then
        logs [info ("Not all builds in %s are signed. Do not rebuild any " +:+
                    "docker image until signed.") [LAdvisories advisories]];;
        mret []
      else
        let pulp_repo_ids := pulp_repo_ids advisories in
        let content_sets := get_content_set_by_repo_ids pulp_repo_ids in
        logs [info "RPM will end up within content sets %s" [LStrs content_sets]];;
        nvr ← lift (event_nvr ev);
        srpm_name ← lift (_find_build_srpm_name nvr);
        mret (find_images_to_rebuild srpm_name content_sets)
  end.

(** ** [_prepare_yum_repo] *)

Definition _get_packages_for_compose (nvr : string) : list string :=
  set_iteration (get_build_rpms nvr None).

Definition _get_compose_source (nvr : string) : result (option string) :=
  match List.filter (fun tag => endswith tag "-candidate") (listTags nvr) with
  | [] => Raise IndexError
  | tag :: _ =>
      match listTagged tag (parse_NVR_name nvr) with
      | latest :: _ => if (latest =? nvr)%string then Ok (Some tag) else Ok None
      | [] => Ok None
      end
  end.

(** How the [while True] loop is left: by [break] or by a bare [return]. *)
Inductive loop_exit : Type := Break | ReturnNone.

(** The polling loop, run on the states that the successive
    [odcs.get_compose(compose_id)] calls answer.  It gives the way the loop
    is left, the records it logs and the answers not yet consumed.
    [time.sleep(1)] only delays the next call. *)
Fixpoint poll (compose_url : string) (answers : list Z)
  : outcome loop_exit * list log_record * list Z :=
  match answers with
  | [] => (Polling, [], [])
  | state :: rest =>
      if (state =? 0)%Z then
        let '(o, l, r) := poll compose_url rest in
        (o, info "Waiting for generating new compose" [] :: l, r)
      else if (state =? 1)%Z then
        let '(o, l, r) := poll compose_url rest in
        (o, info "ODCS is generating the compose" [] :: l, r)
      else if (state =? 4)%Z then
        (Done ReturnNone,
         [error "ODCS fails to generate compose: %s" [LStr compose_url];
          error "Please consult ODCS to see what is wrong with it" []],
         rest)
      else if (state =? 2)%Z then
        (Done Break,
         [info "ODCS has finished to generate compose. Continue to rebuild" []],
         rest)
      else
        (Done ReturnNone,
         [error ("Got unexpected compose state " +:+ str_int state +:+ " from ODCS.") []],
         rest)
  end.

Definition wait_for_compose (compose_url : string) : handler loop_exit := fun w =>
  let '(o, l, r) := poll compose_url (compose_states w) in
  (o, {| db := db w; log := log w ++ l; compose_states := r |}).

Definition compose_url_of (compose_id : Z) : string :=
  strip "/" odcs_server_url +:+ "/odcs/" +:+ odcs_api_version
    +:+ "/composes/" +:+ str_int compose_id.

Definition _prepare_yum_repo (ev : BaseEvent) : handler (option string) :=
  nvr ← lift (event_nvr ev);
  let packages := _get_packages_for_compose nvr in
  compose_source ← lift (_get_compose_source nvr);
  match compose_source with
  | None =>
      logs [error "Build %s is not the latest build in its all tags." [LStr nvr]];;
      mret None
  | Some compose_source =>
      logs [info ("Generate new compose for rebuild: " +:+
                  "source: %s, source type: %s, packages: %s")
                 [LStr compose_source; LStr "tag"; LStrs packages]];;
      let '(compose_id, result_repo) := new_compose compose_source packages in
      let compose_url := compose_url_of compose_id in
      logs [info "Waiting for ODCS to finish the compose: %s" [LStr compose_url]];;
      exit ← wait_for_compose compose_url;
      match exit with
      | ReturnNone => mret None
      | Break =>
          logs [info "Repo URL containing packages used to rebuild container: %s"
                     [LStr result_repo]];;
          mret (Some result_repo)
      end
  end.

(** ** [handle] *)

Definition handle (ev : BaseEvent) : handler (list BaseEvent) :=
  batches ← _find_images_to_rebuild ev;
  match batches with
  | [] =>
      logs [info "Not find docker images to rebuild." []];;
      mret []
  | _ =>
      _log_batches batches;;
      _record_batches batches ev;;
      repo_url ← _prepare_yum_repo ev;
      mret []
  end.

End Handler.

End BrewSignRPMHandler.
Import BrewSignRPMHandler.

(* ===================================================================== *)
(** * Vocabulary of the properties *)
(* ===================================================================== *)

(** The payloads that [GitReceiveParser.parse] skips: a dict whose ['msg']
    is missing or false in a condition; whose ['msg'] is a dict with a
    ['commit'] that is missing or false in a condition; or whose commit is
    a dict with a namespace other than ["modules"]. *)
Inductive skipped : pyval -> Prop :=
| skip_msg d :
    truthy (entry d "msg") = false -> skipped (PDict d)
| skip_commit d m :
    entry d "msg" = PDict m -> truthy (entry m "commit") = false -> skipped (PDict d)
| skip_namespace d m c :
    entry d "msg" = PDict m -> entry m "commit" = PDict c ->
    entry c "namespace" <> PStr "modules" -> skipped (PDict d).

(** A payload whose commit is in the ["modules"] namespace. *)
Definition modules_commit (payload : pyval) : Prop :=
  exists d m c, payload = PDict d /\ entry d "msg" = PDict m /\
                entry m "commit" = PDict c /\ entry c "namespace" = PStr "modules".

(** A payload with no mapping under ['msg']. *)
Definition lacks_msg_mapping (payload : pyval) : Prop :=
  forall d, payload = PDict d -> forall m, entry d "msg" <> PDict m.

(** Sample data: a rendering of containers, the topic of a dist-git push,
    and two payloads. *)
Definition repr_brackets (v : pyval) : string :=
  match v with
  | PList _ => "[...]"
  | _ => "{...}"
  end.

Definition git_receive_topic : string := "org.fedoraproject.prod.git.receive".

Definition commit_payload (namespace : string) : pyval :=
  PDict [("msg", PDict [("commit", PDict [("namespace", PStr namespace);
                                           ("repo", PStr "foo");
                                           ("branch", PStr "master");
                                           ("rev", PStr "abc123")])])].

(** A parser for the same topic that always produces a [TestingEvent]. *)
Definition TestingParser : BaseParser :=
  {| parser_name := "TestingParser";
     topic_suffixes := ["git.receive"];
     can_parse := fun topic _ => endswith topic "git.receive";
     parse := fun _ _ => Ok (Some (TestingEvent PNone)) |}.

(** Two registries: [GitReceiveParser] alone, and [GitReceiveParser]
    followed by [TestingParser]. *)
Definition git_parsers : registry :=
  register_parser (GitReceiveParser.new "git://pkgs.fedoraproject.org" repr_brackets) [].

Definition git_and_testing_parsers : registry :=
  register_parser TestingParser git_parsers.

(** The states of a compose that is not finished yet: 0 (waiting) and
    1 (generating); and what the polling loop logs for each. *)
Definition in_progress (state : Z) : Prop := state = 0%Z \/ state = 1%Z.

Definition progress_record (state : Z) : log_record :=
  if (state =? 0)%Z then info "Waiting for generating new compose" []
  else info "ODCS is generating the compose" [].

(** The world after a method has logged [l] and the compose service has
    [rest] left to answer; the builds table is untouched. *)
Definition logged (w : world) (l : list log_record) (rest : list Z) : world :=
  {| db := db w; log := log w ++ l; compose_states := rest |}.

(** The index of the batch that holds the [k]-th image of a batch list,
    counting the images in the order in which they are recorded. *)
Fixpoint batch_index (batches : list (list ContainerImage)) (k : nat) : option nat :=
  match batches with
  | [] => None
  | batch :: rest =>
      if (k <? length batch)%nat then Some 0
      else S <$> batch_index rest (k - length batch)
  end.

(** [later] names [image] as its parent. *)
Definition parent_is (image later : ContainerImage) : bool :=
  match parent_name later with
  | Some p => (p =? brew_build image)%string
  | None => false
  end.

(** No image of the batch has as parent an image placed before it in the
    same batch. *)
Fixpoint layered (batch : list ContainerImage) : bool :=
  match batch with
  | [] => true
  | image :: rest =>
      forallb (fun later => negb (parent_is image later)) rest && layered rest
  end.

Definition well_layered (batches : list (list ContainerImage)) : bool :=
  forallb layered batches.

(** A batch as the plan has it, a set of images safe to rebuild in
    parallel: no image of the batch has another image of the same batch as
    its parent.  A batch list is a list of such batches. *)
Definition independent (batch : list ContainerImage) : bool :=
  forallb (fun image => forallb (fun other => negb (parent_is other image)) batch) batch.

Definition batch_list (batches : list (list ContainerImage)) : bool :=
  forallb independent batches.

(** The row that [record_image] leaves in the table for [image] when the
    table has [n] rows and the temporary dict is [builds]. *)
Definition new_row (ev : BaseEvent) (n : nat) (builds : gmap string nat)
  (image : ContainerImage) : ArtifactBuild :=
  {| id := n; name := brew_build image; type := IMAGE; state := PLANNED; event := ev;
     dep_on := match parent_name image with
               | Some p => builds !! p
               | None => None
               end;
     build_id := 0;
     build_args := Some (PDict [("repository", PStr (repository image));
                                ("commit", PStr (commit image));
                                ("parent", opt_str (parent_name image))]) |}.

(** The rows and the temporary dict after a batch, and the rows after a
    list of batches, by recursion on the images. *)
Fixpoint batch_rows (ev : BaseEvent) (n : nat) (builds : gmap string nat)
  (batch : list ContainerImage) : list ArtifactBuild :=
  match batch with
  | [] => []
  | image :: rest =>
      new_row ev n builds image
        :: batch_rows ev (S n) (<[brew_build image := n]> builds) rest
  end.

Fixpoint batch_builds (n : nat) (builds : gmap string nat)
  (batch : list ContainerImage) : gmap string nat :=
  match batch with
  | [] => builds
  | image :: rest => batch_builds (S n) (<[brew_build image := n]> builds) rest
  end.

Fixpoint plan_rows (ev : BaseEvent) (n : nat) (builds : gmap string nat)
  (batches : list (list ContainerImage)) : list ArtifactBuild :=
  match batches with
  | [] => []
  | batch :: rest =>
      batch_rows ev n builds batch
        ++ plan_rows ev (n + length batch) (batch_builds n builds batch) rest
  end.

(** What Python guarantees of [list(set(xs))]: every element of [xs], once. *)
Definition set_order_ok (set_iteration : list string -> list string) : Prop :=
  forall xs, List.NoDup (set_iteration xs) /\ forall x, In x (set_iteration xs) <-> In x xs.

(** [l == sorted(l)] for a list of strings. *)
Fixpoint is_sorted (l : list string) : bool :=
  match l with
  | a :: (b :: _) as rest => String.leb a b && is_sorted rest
  | _ => true
  end.

(** Sample collaborators: two advisories carrying the signed build, of
    which the second is not fully signed; two iteration orders of a set;
    and the images [X] (a base image) and [Y] (built on [X]). *)
Module Sample.

Definition ev : BaseEvent := BrewSignRPMEvent (PStr "2020-1") "bash-4.4-1.fc30".

Definition advisories_from_event (_ : BaseEvent) : list ErrataAdvisory :=
  [ {| errata_id := 28484; advisory_name := "RHSA-2020:0001" |};
    {| errata_id := 28485; advisory_name := "RHSA-2020:0002" |} ].

Definition allow_build (_ : ArtifactType) (_ : string) : bool := true.

Definition builds_signed (errata_id : Z) : bool := (errata_id =? 28484)%Z.

Definition get_pulp_repository_ids (errata_id : Z) : list string :=
  if (errata_id =? 28484)%Z
  then ["rhel-7-server-rpms"; "rhel-7-server-optional-rpms"]
  else ["rhel-7-server-rpms"].

Definition get_content_set_by_repo_ids (_ : list string) : list string := ["cs1"].

Definition get_build_rpms (_ : string) (_ : option string) : list string :=
  ["bash"; "bash-doc"].

Definition listTags (_ : string) : list string := ["f30-candidate"].
Definition listTagged (_ _ : string) : list string := ["bash-4.4-1.fc30"].
Definition parse_NVR_name (_ : string) : string := "bash".
Definition odcs_server_url : string := "https://odcs.localhost/".
Definition odcs_api_version : string := "1".
Definition new_compose (_ : string) (_ : list string) : Z * string :=
  (7%Z, "https://odcs.localhost/repo/7").

Definition last_inserted_last (xs : list string) : list string := nodup String.string_dec xs.
Definition last_inserted_first (xs : list string) : list string :=
  rev (nodup String.string_dec xs).

Definition X : ContainerImage := Image "X-1-1" None "rpms/x" "c0ffee".
Definition Y : ContainerImage := Image "Y-1-1" (Some X) "rpms/y" "decaf".

Definition find_images_to_rebuild (_ : string) (_ : list string)
  : list (list ContainerImage) := [[X]; [Y]].

Definition _prepare_yum_repo : BaseEvent -> handler (option string) :=
  BrewSignRPMHandler._prepare_yum_repo get_build_rpms listTags listTagged parse_NVR_name
    odcs_server_url odcs_api_version new_compose last_inserted_last.

Definition handle : BaseEvent -> handler (list BaseEvent) :=
  BrewSignRPMHandler.handle advisories_from_event allow_build builds_signed
    get_pulp_repository_ids get_content_set_by_repo_ids find_images_to_rebuild
    get_build_rpms listTags listTagged parse_NVR_name
    odcs_server_url odcs_api_version new_compose last_inserted_last.

(** The same handler once every build of both advisories is signed. *)
Definition handle_all_signed : BaseEvent -> handler (list BaseEvent) :=
  BrewSignRPMHandler.handle advisories_from_event allow_build (fun _ => true)
    get_pulp_repository_ids get_content_set_by_repo_ids find_images_to_rebuild
    get_build_rpms listTags listTagged parse_NVR_name
    odcs_server_url odcs_api_version new_compose last_inserted_last.

End Sample.

(* ===================================================================== *)
(** * Further vocabulary: the registry, malformed payloads *)
(* ===================================================================== *)

(** [BaseEvent._parsers.get(key)] *)
Fixpoint registry_lookup (key : string) (reg : registry) : option BaseParser :=
  match reg with
  | [] => None
  | (k, p) :: rest => if (k =? key)%string then Some p else registry_lookup key rest
  end.

(** The registry after [register_parser] has been called on each of
    [classes] in turn, starting from the empty dict. *)
Definition registered (classes : list BaseParser) : registry :=
  fold_left (fun reg parser_class => register_parser parser_class reg) classes [].

(** The payloads on which [GitReceiveParser.parse] calls [get] on a value
    that is not a dict: the payload itself; a ['msg'] that is true in a
    condition; or a ['commit'] that is true in a condition. *)
Inductive malformed : pyval -> Prop :=
| malformed_payload v :
    (forall d, v <> PDict d) -> malformed v
| malformed_msg d :
    truthy (entry d "msg") = true -> (forall m, entry d "msg" <> PDict m) ->
    malformed (PDict d)
| malformed_commit d m :
    entry d "msg" = PDict m -> truthy (entry m "commit") = true ->
    (forall c, entry m "commit" <> PDict c) -> malformed (PDict d).

(** The row of the latest of the images [imgs], recorded from row [n] on,
    whose build is named [p]; [acc] when none of them is. *)
Fixpoint latest (p : string) (n : nat) (imgs : list ContainerImage) (acc : option nat)
  : option nat :=
  match imgs with
  | [] => acc
  | image :: rest =>
      latest p (S n) rest (if (brew_build image =? p)%string then Some n else acc)
  end.

(** More sample collaborators: a build system that knows no source RPM of
    the build, and the handler's methods on the samples with every
    advisory signed. *)
Module MoreSamples.

Definition no_src_rpms (_ : string) (arches : option string) : list string :=
  match arches with
  | Some _ => []
  | None => ["bash"; "bash-doc"]
  end.

Definition find_all_signed : BaseEvent -> handler (list (list ContainerImage)) :=
  _find_images_to_rebuild Sample.advisories_from_event Sample.allow_build (fun _ => true)
    Sample.get_pulp_repository_ids Sample.get_content_set_by_repo_ids
    Sample.find_images_to_rebuild Sample.get_build_rpms Sample.last_inserted_last.

Definition handle_no_srpm : BaseEvent -> handler (list BaseEvent) :=
  BrewSignRPMHandler.handle Sample.advisories_from_event Sample.allow_build
    (fun _ => true) Sample.get_pulp_repository_ids Sample.get_content_set_by_repo_ids
    Sample.find_images_to_rebuild no_src_rpms Sample.listTags Sample.listTagged
    Sample.parse_NVR_name Sample.odcs_server_url Sample.odcs_api_version
    Sample.new_compose Sample.last_inserted_last.

Definition world_of (answers : list Z) : world :=
  {| db := []; log := []; compose_states := answers |}.

End MoreSamples.

(* ===================================================================== *)
(** * The functions on sample inputs *)
(* ===================================================================== *)

Example endswith_git_receive :
  endswith "org.fedoraproject.prod.git.receive" "git.receive" = true
  /\ endswith "org.fedoraproject.prod.git.receiv" "git.receive" = false
  /\ endswith "git" "" = true.
Proof. repeat split. Qed.

Example strip_slashes :
  strip "/" "https://odcs.localhost/" = "https://odcs.localhost"
  /\ strip "/" "//a/b//" = "a/b"
  /\ rstrip "." "org.fedoraproject.prod.." = "org.fedoraproject.prod".
Proof. repeat split. Qed.

Example register_parser_twice :
  values (register_parser
            (GitReceiveParser.new "git://src.fedoraproject.org" repr_brackets)
            git_and_testing_parsers)
  = [GitReceiveParser.new "git://src.fedoraproject.org" repr_brackets; TestingParser].
Proof. reflexivity. Qed.

Example get_parsed_topics_default_prefix :
  get_parsed_topics git_and_testing_parsers ["org.fedoraproject.dev"; "org.fedoraproject.stg"]
  = ["org.fedoraproject.dev.git.receive"; "org.fedoraproject.dev.git.receive";
     "org.fedoraproject.stg.git.receive"; "org.fedoraproject.stg.git.receive"].
Proof. reflexivity. Qed.

(** A signed RPM carried by fully signed advisories, with the images [X]
    and [Y] found for it and a compose that is done at the fourth poll: two
    builds are planned, [Y]'s depending on [X]'s, and no event is emitted. *)
Example handle_plans_X_then_Y :
  exists l,
    Sample.handle_all_signed Sample.ev
      {| db := []; log := []; compose_states := [0; 1; 1; 2]%Z |}
    = (Done [],
       {| db := [new_row Sample.ev 0 ∅ Sample.X;
                 new_row Sample.ev 1 {[ "X-1-1" := 0 ]} Sample.Y];
          log := l;
          compose_states := [] |})
    /\ length l = 13.
Proof. eexists. split; reflexivity. Qed.

(* ===================================================================== *)
(** * Properties of the string built-ins *)
(* ===================================================================== *)

Lemma append_nil (t : string) : "" +:+ t = t.
Proof. reflexivity. Qed.

Lemma append_cons (a : ascii) (s t : string) : String a s +:+ t = String a (s +:+ t).
Proof. reflexivity. Qed.

Lemma append_assoc (a b c : string) : (a +:+ b) +:+ c = a +:+ (b +:+ c).
Proof.
  induction a as [|x a IH]; [reflexivity |].
  rewrite !append_cons. now rewrite IH.
Qed.

(** [endswith] holds exactly of the strings that are some prefix followed
    by the suffix. *)
Lemma endswith_spec (s suffix : string) :
  endswith s suffix = true <-> exists p, s = p +:+ suffix.
Proof.
  induction s as [|a s IH]; cbn [endswith].
  - rewrite orb_false_r, String.eqb_eq. split.
    + intros <-. now exists "".
    + intros [[|b p] Hp]; [exact Hp | discriminate].
  - rewrite orb_true_iff, String.eqb_eq, IH. split.
    + intros [<- | [p ->]]; [now exists "" | now exists (String a p)].
    + intros [[|b p] Hp].
      * now left.
      * rewrite append_cons in Hp. injection Hp as _ ->. right. now exists p.
Qed.

(** A string that does not end in [c] is left as it is by [rstrip c]. *)
Lemma rstrip_id (c : ascii) (s : string) :
  endswith s (String c "") = false -> rstrip c s = s.
Proof.
  induction s as [|a s IH]; simpl; [reflexivity |].
  intros H. apply orb_false_iff in H as [Ha Hs].
  destruct s as [|b s].
  - simpl. destruct (Ascii.eqb_spec a c) as [->|]; [|reflexivity].
    now rewrite String.eqb_refl in Ha.
  - rewrite (IH Hs). reflexivity.
Qed.

(* ===================================================================== *)
(** * Properties of the parser registry and of GitReceiveParser *)
(* ===================================================================== *)

(** C9: [GitReceiveParser.can_parse(topic, msg)] is true exactly when the
    topic ends with ["git.receive"], and the payload plays no part: any two
    payloads give the same answer for the same topic. *)
Theorem gr_can_parse_suffix_only (git_base_url : string) (repr : pyval -> string)
  (topic : string) (msg : pyval) :
  (can_parse (GitReceiveParser.new git_base_url repr) topic msg = true
   <-> exists p, topic = p +:+ "git.receive")
  /\ (forall msg', can_parse (GitReceiveParser.new git_base_url repr) topic msg'
                   = can_parse (GitReceiveParser.new git_base_url repr) topic msg).
Proof.
  split; [|reflexivity].
  rewrite <- endswith_spec. cbn [can_parse GitReceiveParser.new].
  unfold GitReceiveParser.can_parse. cbn [existsb GitReceiveParser.topic_suffixes].
  rewrite orb_false_r. destruct (endswith topic "git.receive"); simpl; intuition congruence.
Qed.

(** [parse] on a dict payload, case by case. *)
Lemma gr_parse_dict (git_base_url : string) (repr : pyval -> string) (topic : string)
  (d : list (string * pyval)) :
  GitReceiveParser.parse git_base_url repr topic (PDict d) =
    if negb (truthy (entry d "msg")) then Ok None else
    match entry d "msg" with
    | PDict m =>
        if negb (truthy (entry m "commit")) then Ok None else
        match entry m "commit" with
        | PDict c =>
            if GitReceiveParser.is_modules (entry c "namespace") then
              Ok (Some (ModuleMetadataUpdated (entry d "msg_id")
                          (git_base_url +:+ "/" +:+ str repr (entry c "namespace") +:+ "/"
                             +:+ str repr (entry c "repo") +:+ ".git?#"
                             +:+ str repr (entry c "rev"))
                          (entry c "branch")))
            else Ok None
        | _ => Raise AttributeError
        end
    | _ => Raise AttributeError
    end.
Proof.
  unfold GitReceiveParser.parse, mbind, result_bind, get.
  destruct (negb (truthy (entry d "msg"))); [reflexivity |].
  destruct (entry d "msg") as [| | | | |m]; try reflexivity.
  destruct (negb (truthy (entry m "commit"))); [reflexivity |].
  destruct (entry m "commit") as [| | | | |c]; reflexivity.
Qed.

Lemma is_modules_spec (v : pyval) : GitReceiveParser.is_modules v = true <-> v = PStr "modules".
Proof.
  destruct v; simpl; try (split; [discriminate | discriminate]).
  rewrite String.eqb_eq. split; [now intros -> | now intros [= ->]].
Qed.

(** Where the guards of [parse] work: it returns [None], and does not
    raise, for every dict payload whose ['msg'] is missing or false in a
    condition, whose ['msg'] is a dict whose ['commit'] is missing or false
    in a condition, or whose commit is a dict with a namespace other than
    ["modules"]; and when it produces an event the commit is in the
    ["modules"] namespace. *)
Theorem gr_parse_skipped_is_none (git_base_url : string) (repr : pyval -> string)
  (topic : string) (payload : pyval) :
  (skipped payload ->
   parse (GitReceiveParser.new git_base_url repr) topic payload = Ok None)
  /\ (forall e, parse (GitReceiveParser.new git_base_url repr) topic payload = Ok (Some e) ->
                modules_commit payload).
Proof.
  cbn [parse GitReceiveParser.new]. split.
  - intros H. destruct H as [d Hm | d m Hm Hc | d m c Hm Hc Hn]; rewrite gr_parse_dict.
    + now rewrite Hm.
    + rewrite Hm. destruct (negb (truthy (PDict m))); [reflexivity |]. now rewrite Hc.
    + rewrite Hm. destruct (negb (truthy (PDict m))); [reflexivity |].
      rewrite Hc. destruct (negb (truthy (PDict c))); [reflexivity |].
      destruct (GitReceiveParser.is_modules (entry c "namespace")) eqn:E; [|reflexivity].
      apply is_modules_spec in E. contradiction.
  - intros e H. destruct payload as [| | | | |d]; try discriminate H.
    rewrite gr_parse_dict in H.
    destruct (negb (truthy (entry d "msg"))); [discriminate |].
    destruct (entry d "msg") as [| | | | |m] eqn:Hm; try discriminate.
    destruct (negb (truthy (entry m "commit"))); [discriminate |].
    destruct (entry m "commit") as [| | | | |c] eqn:Hc; try discriminate.
    destruct (GitReceiveParser.is_modules (entry c "namespace")) eqn:E; [|discriminate].
    apply is_modules_spec in E. now exists d, m, c.
Qed.

Lemma gr_parse_skipped_is_none_witness :
  parse (GitReceiveParser.new "git://pkgs.fedoraproject.org" repr_brackets)
        git_receive_topic (commit_payload "rpms") = Ok None
  /\ parse (GitReceiveParser.new "git://pkgs.fedoraproject.org" repr_brackets)
           git_receive_topic (PDict [("msg_id", PStr "2017-1")]) = Ok None
  /\ parse (GitReceiveParser.new "git://pkgs.fedoraproject.org" repr_brackets)
           git_receive_topic (PDict [("msg", PDict [("topic", PStr "t")])]) = Ok None.
Proof.
  split; [|split].
  - apply (proj1 (gr_parse_skipped_is_none _ _ _ _)).
    eapply skip_namespace; [reflexivity | reflexivity | discriminate].
  - apply (proj1 (gr_parse_skipped_is_none _ _ _ _)).
    apply skip_msg. reflexivity.
  - apply (proj1 (gr_parse_skipped_is_none _ _ _ _)).
    eapply skip_commit; reflexivity.
Defined.

(** C10: [parse] is to return [None] for a payload without a ['msg']
    mapping, and its comment says so ("If there isn't a msg dict in msg
    then this message can be skipped"), but the guard [if not msg_inner_msg]
    only catches a ['msg'] that is missing or false in a condition: the
    payload whose ['msg'] is the string ["hello"] has no ['msg'] mapping,
    and [parse] raises [AttributeError] on it instead of returning [None]. *)
Lemma gr_parse_string_msg_raises :
  lacks_msg_mapping (PDict [("msg", PStr "hello")])
  /\ parse (GitReceiveParser.new "git://pkgs.fedoraproject.org" repr_brackets)
           git_receive_topic (PDict [("msg", PStr "hello")]) = Raise AttributeError.
Proof.
  split; [|reflexivity].
  intros d [= <-] m. discriminate.
Qed.

(** C7: with [GitReceiveParser] registered, the dist-git push of commit
    ["abc123"] to branch ["master"] of the module ["foo"] is classified as
    a [ModuleMetadataUpdated] event whose [scm_url] ends with
    ["foo.git?#abc123"] and whose [branch] is ["master"]. *)
Theorem from_fedmsg_git_receive_modules (git_base_url : string) (repr : pyval -> string) :
  exists msg_id scm_url,
    from_fedmsg (register_parser (GitReceiveParser.new git_base_url repr) [])
                "org.fedoraproject.prod.git.receive" (commit_payload "modules")
    = Ok (Some (ModuleMetadataUpdated msg_id scm_url (PStr "master")))
    /\ scm_url = git_base_url +:+ "/modules/foo.git?#abc123"
    /\ endswith scm_url "foo.git?#abc123" = true.
Proof.
  exists PNone, (git_base_url +:+ "/modules/foo.git?#abc123").
  split; [reflexivity | split; [reflexivity |]].
  apply endswith_spec. exists (git_base_url +:+ "/modules/").
  now rewrite append_assoc.
Qed.

(** The loop skips the parsers that cannot parse the message. *)
Lemma from_fedmsg_loop_skip (before rest : list BaseParser) (topic : string) (msg : pyval) :
  Forall (fun q => can_parse q topic msg = false) before ->
  from_fedmsg_loop (before ++ rest) topic msg = from_fedmsg_loop rest topic msg.
Proof.
  induction 1 as [|q before Hq _ IH]; [reflexivity |].
  cbn [app from_fedmsg_loop]. now rewrite Hq.
Qed.

(** C1, as the code has it: [from_fedmsg] returns what [parse] of the first
    registered parser whose [can_parse] is true returns, an event or
    [None], without consulting the parsers after it; and it returns [None]
    when no registered parser can parse the message. *)
Theorem from_fedmsg_first_can_parse (_parsers : registry) (topic : string) (msg : pyval) :
  (forall before parser after,
      values _parsers = before ++ parser :: after ->
      Forall (fun q => can_parse q topic msg = false) before ->
      can_parse parser topic msg = true ->
      from_fedmsg _parsers topic msg = parse parser topic msg)
  /\ (Forall (fun q => can_parse q topic msg = false) (values _parsers) ->
      from_fedmsg _parsers topic msg = Ok None).
Proof.
  unfold from_fedmsg. split.
  - intros before parser after -> Hbefore Hcan.
    rewrite from_fedmsg_loop_skip by exact Hbefore.
    cbn [from_fedmsg_loop]. now rewrite Hcan.
  - intros Hnone. rewrite <- (app_nil_r (values _parsers)).
    now rewrite from_fedmsg_loop_skip.
Qed.

Lemma from_fedmsg_first_can_parse_witness :
  from_fedmsg git_and_testing_parsers git_receive_topic (commit_payload "rpms")
  = parse (GitReceiveParser.new "git://pkgs.fedoraproject.org" repr_brackets)
          git_receive_topic (commit_payload "rpms")
  /\ from_fedmsg git_and_testing_parsers "org.fedoraproject.prod.buildsys.tag" PNone = Ok None.
Proof.
  split.
  - apply (proj1 (from_fedmsg_first_can_parse _ _ _) [] _ [TestingParser]);
      [reflexivity | constructor | reflexivity].
  - apply (proj2 (from_fedmsg_first_can_parse _ _ _)).
    repeat constructor.
Defined.

(** C1 fails as stated: [GitReceiveParser] can parse a push to the
    ["rpms"] namespace and returns [None] for it; [from_fedmsg] then
    returns [None] although [TestingParser], registered after it, can parse
    the same message and produces an event. *)
Lemma from_fedmsg_stops_at_first_parser :
  from_fedmsg git_and_testing_parsers git_receive_topic (commit_payload "rpms") = Ok None
  /\ values git_and_testing_parsers
     = [GitReceiveParser.new "git://pkgs.fedoraproject.org" repr_brackets; TestingParser]
  /\ can_parse TestingParser git_receive_topic (commit_payload "rpms") = true
  /\ parse TestingParser git_receive_topic (commit_payload "rpms")
     = Ok (Some (TestingEvent PNone)).
Proof. repeat split. Qed.

(** C6, as the code has it: the topics are exactly the strings
    [prefix' + "." + suffix] where [prefix'] is a configured prefix without
    its trailing dots and [suffix] is declared by a registered parser. *)
Theorem get_parsed_topics_spec (_parsers : registry) (messaging_topic_prefix : list string)
  (t : string) :
  In t (get_parsed_topics _parsers messaging_topic_prefix)
  <-> exists pref parser suffix,
        In pref messaging_topic_prefix /\ In parser (values _parsers) /\
        In suffix (topic_suffixes parser) /\
        t = rstrip "." pref +:+ "." +:+ suffix.
Proof.
  unfold get_parsed_topics. rewrite in_map_iff. split.
  - intros [[pref cat] [<- Hin]]. apply in_prod_iff in Hin as [Hp Hc].
    apply in_flat_map in Hc as [parser [Hparser Hsuffix]].
    now exists pref, parser, cat.
  - intros (pref & parser & suffix & Hp & Hparser & Hsuffix & ->).
    exists (pref, suffix). split; [reflexivity |].
    apply in_prod_iff. split; [exact Hp |].
    apply in_flat_map. now exists parser.
Qed.

(** C6 fails as stated: for the configured prefix
    ["org.fedoraproject.prod."] the string prefix + "." + suffix is not
    among the topics; the trailing dot of the prefix is dropped. *)
Lemma get_parsed_topics_drops_trailing_dot :
  get_parsed_topics git_parsers ["org.fedoraproject.prod."]
  = ["org.fedoraproject.prod.git.receive"]
  /\ ~ In ("org.fedoraproject.prod." +:+ "." +:+ "git.receive")
          (get_parsed_topics git_parsers ["org.fedoraproject.prod."]).
Proof.
  split; [reflexivity |].
  intros [H | []]. discriminate H.
Qed.

(* ===================================================================== *)
(** * Properties of the compose polling loop *)
(* ===================================================================== *)

(** While the compose is waiting or generating the loop only logs and
    polls again. *)
Lemma poll_in_progress (compose_url : string) (waiting rest : list Z) :
  Forall in_progress waiting ->
  poll compose_url (waiting ++ rest) =
    let '(o, l, r) := poll compose_url rest in
    (o, map progress_record waiting ++ l, r).
Proof.
  induction 1 as [|state waiting Hstate _ IH].
  - cbn [app map]. now destruct (poll compose_url rest) as [[o l] r].
  - cbn [app map poll]. rewrite IH.
    destruct (poll compose_url rest) as [[o l] r].
    unfold progress_record. destruct Hstate as [-> | ->]; reflexivity.
Qed.

Lemma poll_done (compose_url : string) (rest : list Z) :
  poll compose_url (2%Z :: rest)
  = (Done Break, [info "ODCS has finished to generate compose. Continue to rebuild" []], rest).
Proof. reflexivity. Qed.

Lemma poll_failed (compose_url : string) (rest : list Z) :
  poll compose_url (4%Z :: rest)
  = (Done ReturnNone,
     [error "ODCS fails to generate compose: %s" [LStr compose_url];
      error "Please consult ODCS to see what is wrong with it" []],
     rest).
Proof. reflexivity. Qed.

Lemma poll_unexpected (compose_url : string) (state : Z) (rest : list Z) :
  state <> 0%Z -> state <> 1%Z -> state <> 2%Z -> state <> 4%Z ->
  poll compose_url (state :: rest)
  = (Done ReturnNone,
     [error ("Got unexpected compose state " +:+ str_int state +:+ " from ODCS.") []],
     rest).
Proof.
  intros H0 H1 H2 H4. cbn [poll].
  destruct (Z.eqb_spec state 0); [contradiction |].
  destruct (Z.eqb_spec state 1); [contradiction |].
  destruct (Z.eqb_spec state 4); [contradiction |].
  destruct (Z.eqb_spec state 2); [contradiction | reflexivity].
Qed.

Section Compose.

Variable get_build_rpms : string -> option string -> list string.
Variable listTags : string -> list string.
Variable listTagged : string -> string -> list string.
Variable parse_NVR_name : string -> string.
Variable odcs_server_url : string.
Variable odcs_api_version : string.
Variable new_compose : string -> list string -> Z * string.
Variable set_iteration : list string -> list string.

Abbreviation prepare :=
  (_prepare_yum_repo get_build_rpms listTags listTagged parse_NVR_name
                     odcs_server_url odcs_api_version new_compose set_iteration).
Abbreviation compose_url := (compose_url_of odcs_server_url odcs_api_version).

(** C2: once the compose is requested, the states 0 and 1 only make the
    loop poll again; at the first other state the loop stops without further
    polls: on 2 [_prepare_yum_repo] returns the result repository URL; on 4
    it returns no repository after logging an error that carries the URL of
    the compose job; on any other integer it returns no repository after
    logging the unexpected state as an error. *)
Theorem prepare_yum_repo_outcomes (msg_id : pyval) (nvr source : string)
  (compose_id : Z) (result_repo : string) (w : world)
  (waiting : list Z) (state : Z) (rest : list Z) :
  _get_compose_source listTags listTagged parse_NVR_name nvr = Ok (Some source) ->
  new_compose source (_get_packages_for_compose get_build_rpms set_iteration nvr)
    = (compose_id, result_repo) ->
  compose_states w = waiting ++ state :: rest ->
  Forall in_progress waiting ->
  (state = 2%Z ->
     exists before after,
       prepare (BrewSignRPMEvent msg_id nvr) w
       = (Done (Some result_repo),
          logged w (before ++ map progress_record waiting ++ after) rest))
  /\ (state = 4%Z ->
        exists before after,
          prepare (BrewSignRPMEvent msg_id nvr) w
          = (Done None, logged w (before ++ map progress_record waiting ++ after) rest)
          /\ In (error "ODCS fails to generate compose: %s" [LStr (compose_url compose_id)])
                after)
  /\ (state <> 0%Z -> state <> 1%Z -> state <> 2%Z -> state <> 4%Z ->
        exists before after,
          prepare (BrewSignRPMEvent msg_id nvr) w
          = (Done None, logged w (before ++ map progress_record waiting ++ after) rest)
          /\ In (error ("Got unexpected compose state " +:+ str_int state +:+ " from ODCS.") [])
                after).
Proof.
  intros Hsource Hnew Hstates Hwaiting.
  assert (Hrun : prepare (BrewSignRPMEvent msg_id nvr) w =
    let before :=
      [info ("Generate new compose for rebuild: " +:+
             "source: %s, source type: %s, packages: %s")
            [LStr source; LStr "tag";
             LStrs (_get_packages_for_compose get_build_rpms set_iteration nvr)];
       info "Waiting for ODCS to finish the compose: %s" [LStr (compose_url compose_id)]] in
    let '(o, l, r) := poll (compose_url compose_id) (state :: rest) in
    match o with
    | Done Break =>
        (Done (Some result_repo),
         logged w (before ++ map progress_record waiting ++ l ++
                   [info "Repo URL containing packages used to rebuild container: %s"
                         [LStr result_repo]]) r)
    | Done ReturnNone => (Done None, logged w (before ++ map progress_record waiting ++ l) r)
    | Raised e => (Raised e, logged w (before ++ map progress_record waiting ++ l) r)
    | Polling => (Polling, logged w (before ++ map progress_record waiting ++ l) r)
    end).
  { unfold _prepare_yum_repo, mbind, handler_bind, lift, logs, mret, handler_ret,
      wait_for_compose, logged.
    cbn [event_nvr]. rewrite Hsource, Hnew. cbn [compose_states log db].
    rewrite Hstates, poll_in_progress by assumption.
    destruct (poll (compose_url compose_id) (state :: rest)) as [[o l] r].
    destruct o as [[|]| |]; cbn [compose_states log db];
      repeat rewrite <- app_assoc; reflexivity. }
  rewrite Hrun. clear Hrun. split; [|split].
  - intros ->. rewrite poll_done. cbv beta iota zeta. eauto.
  - intros ->. rewrite poll_failed. cbv beta iota zeta.
    do 2 eexists. split; [reflexivity | now left].
  - intros H0 H1 H2 H4. rewrite poll_unexpected by assumption. cbv beta iota zeta.
    do 2 eexists. split; [reflexivity | now left].
Qed.

End Compose.

Lemma prepare_yum_repo_outcomes_witness :
  (exists l, Sample._prepare_yum_repo Sample.ev
               {| db := []; log := []; compose_states := [0; 1; 1; 2]%Z |}
             = (Done (Some "https://odcs.localhost/repo/7"),
                {| db := []; log := l; compose_states := [] |}))
  /\ (exists l, Sample._prepare_yum_repo Sample.ev
                  {| db := []; log := []; compose_states := [0; 4]%Z |}
                = (Done None, {| db := []; log := l; compose_states := [] |})
                /\ In (error "ODCS fails to generate compose: %s"
                             [LStr "https://odcs.localhost/odcs/1/composes/7"]) l).
Proof.
  split.
  - edestruct (prepare_yum_repo_outcomes
                Sample.get_build_rpms Sample.listTags Sample.listTagged
                Sample.parse_NVR_name Sample.odcs_server_url Sample.odcs_api_version
                Sample.new_compose Sample.last_inserted_last
                (PStr "2020-1") "bash-4.4-1.fc30" "f30-candidate" 7%Z
                "https://odcs.localhost/repo/7"
                {| db := []; log := []; compose_states := [0; 1; 1; 2]%Z |}
                [0; 1; 1]%Z 2%Z []) as (Hdone & _ & _).
    + reflexivity.
    + reflexivity.
    + reflexivity.
    + repeat (constructor; [unfold in_progress; lia |]). constructor.
    + destruct (Hdone eq_refl) as (before & after & H).
      eexists. exact H.
  - edestruct (prepare_yum_repo_outcomes
                Sample.get_build_rpms Sample.listTags Sample.listTagged
                Sample.parse_NVR_name Sample.odcs_server_url Sample.odcs_api_version
                Sample.new_compose Sample.last_inserted_last
                (PStr "2020-1") "bash-4.4-1.fc30" "f30-candidate" 7%Z
                "https://odcs.localhost/repo/7"
                {| db := []; log := []; compose_states := [0; 4]%Z |}
                [0]%Z 4%Z []) as (_ & Hfailed & _).
    + reflexivity.
    + reflexivity.
    + reflexivity.
    + repeat (constructor; [unfold in_progress; lia |]). constructor.
    + destruct (Hfailed eq_refl) as (before & after & H & Hin).
      eexists. split; [exact H |].
      unfold logged. cbn [log app].
      apply in_or_app. right. apply in_or_app. right. exact Hin.
Defined.

(* ===================================================================== *)
(** * Properties of the search for images to rebuild *)
(* ===================================================================== *)

Section Find.

Variable advisories_from_event : BaseEvent -> list ErrataAdvisory.
Variable allow_build : ArtifactType -> string -> bool.
Variable builds_signed : Z -> bool.
Variable get_pulp_repository_ids : Z -> list string.
Variable get_content_set_by_repo_ids : list string -> list string.
Variable find_images_to_rebuild : string -> list string -> list (list ContainerImage).
Variable get_build_rpms : string -> option string -> list string.
Variable listTags : string -> list string.
Variable listTagged : string -> string -> list string.
Variable parse_NVR_name : string -> string.
Variable odcs_server_url : string.
Variable odcs_api_version : string.
Variable new_compose : string -> list string -> Z * string.
Variable set_iteration : list string -> list string.

Abbreviation eligible := (eligible_advisories advisories_from_event allow_build).
Abbreviation find_images :=
  (_find_images_to_rebuild advisories_from_event allow_build builds_signed
     get_pulp_repository_ids get_content_set_by_repo_ids find_images_to_rebuild
     get_build_rpms set_iteration).
Abbreviation handle_event :=
  (handle advisories_from_event allow_build builds_signed
     get_pulp_repository_ids get_content_set_by_repo_ids find_images_to_rebuild
     get_build_rpms listTags listTagged parse_NVR_name
     odcs_server_url odcs_api_version new_compose set_iteration).

(** C3: when an eligible advisory has builds that are not all signed,
    [_find_images_to_rebuild] returns the empty list of batches, and
    [handle] ends with the builds table as it was and without asking for a
    compose. *)
Theorem unsigned_advisory_empty_plan (ev : BaseEvent) (w : world)
  (advisory : ErrataAdvisory) :
  In advisory (eligible ev) ->
  builds_signed (errata_id advisory) = false ->
  (exists l, find_images ev w = (Done [], logged w l (compose_states w)))
  /\ (exists l, handle_event ev w = (Done [], logged w l (compose_states w))).
Proof.
  intros Hin Hunsigned.
  assert (Hall : forallb (fun a => builds_signed (errata_id a)) (eligible ev) = false).
  { destruct (forallb _ (eligible ev)) eqn:E; [|reflexivity].
    rewrite forallb_forall in E. specialize (E _ Hin). cbv beta in E. congruence. }
  assert (Hfind : exists l, find_images ev w = (Done [], logged w l (compose_states w))).
  { unfold _find_images_to_rebuild.
    destruct (eligible ev) as [|a rest] eqn:Hel; [destruct Hin |].
    rewrite Hall. cbn [negb]. eexists. reflexivity. }
  split; [exact Hfind |].
  destruct Hfind as [l Hl]. unfold handle, mbind, handler_bind. rewrite Hl.
  unfold logs, mret, handler_ret, logged. cbn [db log compose_states].
  rewrite <- app_assoc. eexists. reflexivity.
Qed.

(** C5, as the code has it: the merged list holds every pulp repository
    id of every advisory exactly once; its order is the iteration order of
    a Python set, so two runs agree on the ids but not necessarily on
    their order. *)
Theorem pulp_repo_ids_deduplicated (advisories : list ErrataAdvisory) :
  set_order_ok set_iteration ->
  List.NoDup (pulp_repo_ids get_pulp_repository_ids set_iteration advisories)
  /\ (forall r, In r (pulp_repo_ids get_pulp_repository_ids set_iteration advisories)
                <-> exists advisory, In advisory advisories /\
                                     In r (get_pulp_repository_ids (errata_id advisory)))
  /\ (forall set_iteration', set_order_ok set_iteration' ->
        Permutation (pulp_repo_ids get_pulp_repository_ids set_iteration advisories)
                    (pulp_repo_ids get_pulp_repository_ids set_iteration' advisories)).
Proof.
  intros Hok. unfold pulp_repo_ids.
  set (ids := concat (map (fun a => get_pulp_repository_ids (errata_id a)) advisories)).
  destruct (Hok ids) as [Hnodup Hin]. split; [exact Hnodup | split].
  - intros r. rewrite Hin. unfold ids. rewrite in_concat. split.
    + intros (l & Hl & Hr). apply in_map_iff in Hl as (a & <- & Ha). now exists a.
    + intros (a & Ha & Hr). exists (get_pulp_repository_ids (errata_id a)).
      split; [|exact Hr]. apply in_map_iff. now exists a.
  - intros set_iteration' Hok'. destruct (Hok' ids) as [Hnodup' Hin'].
    apply Permutation.NoDup_Permutation; [exact Hnodup | exact Hnodup' |].
    intros r. now rewrite Hin, Hin'.
Qed.

End Find.

Lemma last_inserted_last_ok : set_order_ok Sample.last_inserted_last.
Proof.
  intros xs. split; [apply NoDup_nodup |]. intros x. apply nodup_In.
Qed.

Lemma last_inserted_first_ok : set_order_ok Sample.last_inserted_first.
Proof.
  intros xs. unfold Sample.last_inserted_first. split.
  - apply NoDup_rev, NoDup_nodup.
  - intros x. rewrite <- in_rev. apply nodup_In.
Qed.

Lemma unsigned_advisory_empty_plan_witness :
  exists l, Sample.handle Sample.ev {| db := []; log := []; compose_states := [0; 2]%Z |}
            = (Done [], {| db := []; log := l; compose_states := [0; 2]%Z |}).
Proof.
  edestruct (unsigned_advisory_empty_plan
               Sample.advisories_from_event Sample.allow_build Sample.builds_signed
               Sample.get_pulp_repository_ids Sample.get_content_set_by_repo_ids
               Sample.find_images_to_rebuild Sample.get_build_rpms Sample.listTags
               Sample.listTagged Sample.parse_NVR_name Sample.odcs_server_url
               Sample.odcs_api_version Sample.new_compose Sample.last_inserted_last
               Sample.ev {| db := []; log := []; compose_states := [0; 2]%Z |}
               {| errata_id := 28485; advisory_name := "RHSA-2020:0002" |})
    as (_ & l & Hl).
  - right. left. reflexivity.
  - reflexivity.
  - exists l. exact Hl.
Defined.

Lemma pulp_repo_ids_deduplicated_witness :
  List.NoDup (pulp_repo_ids Sample.get_pulp_repository_ids Sample.last_inserted_last
           (Sample.advisories_from_event Sample.ev))
  /\ Permutation
       (pulp_repo_ids Sample.get_pulp_repository_ids Sample.last_inserted_last
          (Sample.advisories_from_event Sample.ev))
       (pulp_repo_ids Sample.get_pulp_repository_ids Sample.last_inserted_first
          (Sample.advisories_from_event Sample.ev)).
Proof.
  destruct (pulp_repo_ids_deduplicated Sample.get_pulp_repository_ids
              Sample.last_inserted_last (Sample.advisories_from_event Sample.ev)
              last_inserted_last_ok) as (Hnodup & _ & Hperm).
  split; [exact Hnodup |]. apply Hperm. exact last_inserted_first_ok.
Defined.

(** C5 fails as stated: the ids of the two sample advisories come out of
    the set as [optional-rpms; rpms] under one iteration order, where they
    are sorted, and as [rpms; optional-rpms] under another, where they are
    not; both orders are ones a Python set may have. *)
Lemma pulp_repo_ids_order_is_open :
  set_order_ok Sample.last_inserted_last
  /\ set_order_ok Sample.last_inserted_first
  /\ pulp_repo_ids Sample.get_pulp_repository_ids Sample.last_inserted_last
       (Sample.advisories_from_event Sample.ev)
     = ["rhel-7-server-optional-rpms"; "rhel-7-server-rpms"]
  /\ pulp_repo_ids Sample.get_pulp_repository_ids Sample.last_inserted_first
       (Sample.advisories_from_event Sample.ev)
     = ["rhel-7-server-rpms"; "rhel-7-server-optional-rpms"]
  /\ is_sorted (pulp_repo_ids Sample.get_pulp_repository_ids Sample.last_inserted_first
                  (Sample.advisories_from_event Sample.ev)) = false.
Proof.
  split; [exact last_inserted_last_ok | split; [exact last_inserted_first_ok |]].
  repeat split.
Qed.

(* ===================================================================== *)
(** * Properties of the recorded plan *)
(* ===================================================================== *)

Lemma record_image_eq (ev : BaseEvent) (table : list ArtifactBuild)
  (builds : gmap string nat) (image : ContainerImage) :
  record_image ev (table, builds) image
  = (table ++ [new_row ev (length table) builds image],
     <[brew_build image := length table]> builds).
Proof.
  unfold record_image, record_build, set_build_args.
  rewrite lookup_app_r by lia. rewrite Nat.sub_diag. cbn [lookup list_lookup].
  f_equal. rewrite insert_app_r_alt by lia. rewrite Nat.sub_diag. reflexivity.
Qed.

Lemma record_batch_eq (ev : BaseEvent) (batch : list ContainerImage) :
  forall table builds,
    record_batch ev (table, builds) batch
    = (table ++ batch_rows ev (length table) builds batch,
       batch_builds (length table) builds batch).
Proof.
  unfold record_batch. induction batch as [|image rest IH]; intros table builds.
  - cbn. now rewrite app_nil_r.
  - cbn [fold_left batch_rows batch_builds]. rewrite record_image_eq, IH.
    rewrite length_app. cbn [length]. rewrite Nat.add_1_r, <- app_assoc. reflexivity.
Qed.

Lemma batch_rows_length (ev : BaseEvent) (batch : list ContainerImage) :
  forall n builds, length (batch_rows ev n builds batch) = length batch.
Proof. induction batch as [|image rest IH]; intros; cbn; [reflexivity | now rewrite IH]. Qed.

Lemma record_batches_eq (batches : list (list ContainerImage)) (ev : BaseEvent)
  (table : list ArtifactBuild) :
  record_batches batches ev table = table ++ plan_rows ev (length table) ∅ batches.
Proof.
  unfold record_batches. generalize (∅ : gmap string nat) as builds. revert table.
  induction batches as [|batch rest IH]; intros table builds.
  - cbn. now rewrite app_nil_r.
  - cbn [fold_left plan_rows]. rewrite record_batch_eq, IH.
    rewrite length_app, batch_rows_length, <- app_assoc. reflexivity.
Qed.

Lemma batch_rows_planned (ev : BaseEvent) (batch : list ContainerImage) :
  forall n builds,
    Forall (fun row => state row = PLANNED /\ build_id row = 0%Z /\ event row = ev)
           (batch_rows ev n builds batch).
Proof.
  induction batch as [|image rest IH]; intros n builds; cbn [batch_rows].
  - constructor.
  - constructor; [now cbn | apply IH].
Qed.

Lemma plan_rows_planned (ev : BaseEvent) (batches : list (list ContainerImage)) :
  forall n builds,
    Forall (fun row => state row = PLANNED /\ build_id row = 0%Z /\ event row = ev)
           (plan_rows ev n builds batches).
Proof.
  induction batches as [|batch rest IH]; intros n builds; cbn [plan_rows].
  - constructor.
  - apply Forall_app. split; [apply batch_rows_planned | apply IH].
Qed.

Lemma plan_rows_length (ev : BaseEvent) (batches : list (list ContainerImage)) :
  forall n builds, length (plan_rows ev n builds batches) = length (concat batches).
Proof.
  induction batches as [|batch rest IH]; intros n builds; cbn [plan_rows concat].
  - reflexivity.
  - now rewrite !length_app, batch_rows_length, IH.
Qed.

(** C8: [_record_batches] leaves the rows of the table as they are and
    appends one row for each image of the batches; every row it appends is
    in the PLANNED state, has [build_id] 0 and belongs to the triggering
    event. *)
Theorem record_batches_planned (batches : list (list ContainerImage)) (ev : BaseEvent)
  (w : world) :
  exists rows,
    _record_batches batches ev w
    = (Done tt, {| db := db w ++ rows; log := log w; compose_states := compose_states w |})
    /\ length rows = length (concat batches)
    /\ Forall (fun row => state row = PLANNED /\ build_id row = 0%Z /\ event row = ev) rows.
Proof.
  exists (plan_rows ev (length (db w)) ∅ batches).
  unfold _record_batches. rewrite record_batches_eq.
  split; [reflexivity | split; [apply plan_rows_length | apply plan_rows_planned]].
Qed.

Lemma batch_rows_id (ev : BaseEvent) (batch : list ContainerImage) :
  forall n builds k row, batch_rows ev n builds batch !! k = Some row -> id row = n + k.
Proof.
  induction batch as [|image rest IH]; intros n builds k row; cbn [batch_rows].
  - discriminate.
  - destruct k as [|k]; cbn [lookup list_lookup].
    + intros [= <-]. cbn. lia.
    + intros H. apply IH in H. lia.
Qed.

(** The temporary dict only ever refers to rows recorded so far. *)
Lemma insert_bound (builds : gmap string nat) (key : string) (n0 n : nat) :
  n0 <= n ->
  (forall p b, builds !! p = Some b -> n0 <= b < n) ->
  forall p b, <[key := n]> builds !! p = Some b -> n0 <= b < S n.
Proof.
  intros Hn Hbuilds p b. destruct (decide (key = p)) as [-> | Hne].
  - rewrite lookup_insert_eq. intros [= <-]. lia.
  - rewrite lookup_insert_ne by exact Hne. intros H. apply Hbuilds in H. lia.
Qed.

Lemma batch_builds_bound (batch : list ContainerImage) :
  forall n builds n0,
    n0 <= n ->
    (forall p b, builds !! p = Some b -> n0 <= b < n) ->
    forall p b, batch_builds n builds batch !! p = Some b -> n0 <= b < n + length batch.
Proof.
  induction batch as [|image rest IH]; intros n builds n0 Hn Hbuilds p b;
    cbn [batch_builds length].
  - intros H. apply Hbuilds in H. lia.
  - intros H.
    apply (IH (S n) (<[brew_build image := n]> builds) n0) in H;
      [lia | lia | now apply insert_bound].
Qed.

(** A row depends on a row recorded before it. *)
Lemma batch_rows_dep_bound (ev : BaseEvent) (batch : list ContainerImage) :
  forall n builds n0,
    n0 <= n ->
    (forall p b, builds !! p = Some b -> n0 <= b < n) ->
    forall k row b,
      batch_rows ev n builds batch !! k = Some row -> dep_on row = Some b ->
      n0 <= b < n + k.
Proof.
  induction batch as [|image rest IH]; intros n builds n0 Hn Hbuilds k row b;
    cbn [batch_rows].
  - discriminate.
  - destruct k as [|k]; cbn [lookup list_lookup].
    + intros [= <-]. cbn [dep_on new_row].
      destruct (parent_name image) as [p|]; [|discriminate].
      intros H. apply Hbuilds in H. lia.
    + intros Hrow Hdep.
      apply (IH (S n) (<[brew_build image := n]> builds) n0 ltac:(lia)
               (insert_bound _ _ _ _ Hn Hbuilds) _ _ _ Hrow) in Hdep.
      lia.
Qed.

(** In a layered batch a row depends on a row that was in the temporary
    dict when the batch was begun. *)
Lemma batch_rows_layered (ev : BaseEvent) (builds0 : gmap string nat)
  (batch : list ContainerImage) :
  forall n builds,
    layered batch = true ->
    (forall image p, In image batch -> parent_name image = Some p ->
                     builds !! p = builds0 !! p) ->
    forall k row b,
      batch_rows ev n builds batch !! k = Some row -> dep_on row = Some b ->
      exists p, builds0 !! p = Some b.
Proof.
  induction batch as [|image rest IH]; intros n builds Hlayered Hsame k row b;
    cbn [batch_rows].
  - discriminate.
  - cbn [layered] in Hlayered. apply andb_true_iff in Hlayered as [Hfirst Hrest].
    destruct k as [|k]; cbn [lookup list_lookup].
    + intros [= <-]. cbn [dep_on new_row].
      destruct (parent_name image) as [p|] eqn:Hp; [|discriminate].
      rewrite (Hsame image p) by (try left; auto). eauto.
    + apply (IH (S n)); [exact Hrest |].
      intros later p Hin Hp. rewrite <- (Hsame later p) by (try right; auto).
      apply lookup_insert_ne. intros <-.
      rewrite forallb_forall in Hfirst. specialize (Hfirst later Hin).
      unfold parent_is in Hfirst. rewrite Hp, String.eqb_refl in Hfirst. discriminate.
Qed.

Lemma plan_rows_id (ev : BaseEvent) (batches : list (list ContainerImage)) :
  forall n builds k row, plan_rows ev n builds batches !! k = Some row -> id row = n + k.
Proof.
  induction batches as [|batch rest IH]; intros n builds k row; cbn [plan_rows].
  - discriminate.
  - intros H. destruct (Nat.lt_ge_cases k (length batch)) as [Hk | Hk].
    + rewrite lookup_app_l in H by (rewrite batch_rows_length; exact Hk).
      now apply batch_rows_id in H.
    + rewrite lookup_app_r in H by (rewrite batch_rows_length; exact Hk).
      rewrite batch_rows_length in H. apply IH in H. lia.
Qed.

Lemma plan_rows_deps (ev : BaseEvent) (batches : list (list ContainerImage)) :
  forall n builds n0,
    n0 <= n ->
    (forall p b, builds !! p = Some b -> n0 <= b < n) ->
    forall k A b,
      plan_rows ev n builds batches !! k = Some A -> dep_on A = Some b ->
      id A = n + k /\ n0 <= b < n + k /\
      exists iA, batch_index batches k = Some iA /\
        (b < n \/
         (n <= b /\ exists iB, batch_index batches (b - n) = Some iB /\ iB <= iA /\
                               (well_layered batches = true -> iB < iA))).
Proof.
  induction batches as [|batch rest IH]; intros n builds n0 Hn Hbuilds k A b;
    cbn [plan_rows].
  - discriminate.
  - intros HA Hdep. cbn [batch_index].
    destruct (Nat.ltb_spec k (length batch)) as [Hk | Hk].
    + rewrite lookup_app_l in HA by (rewrite batch_rows_length; exact Hk).
      pose proof (batch_rows_id _ _ _ _ _ _ HA) as Hid.
      pose proof (batch_rows_dep_bound _ _ _ _ _ Hn Hbuilds _ _ _ HA Hdep) as Hb.
      split; [exact Hid | split; [exact Hb |]].
      exists 0. split; [reflexivity |].
      destruct (Nat.lt_ge_cases b n) as [Hlt | Hge]; [now left | right].
      split; [exact Hge |]. exists 0.
      destruct (Nat.ltb_spec (b - n) (length batch)) as [_ | Hbad]; [|lia].
      split; [reflexivity | split; [lia |]].
      intros Hwl. cbn [well_layered forallb] in Hwl.
      apply andb_true_iff in Hwl as [Hlayered _].
      destruct (batch_rows_layered ev builds batch n builds Hlayered
                  ltac:(reflexivity) _ _ _ HA Hdep) as [p Hp].
      apply Hbuilds in Hp. lia.
    + rewrite lookup_app_r in HA by (rewrite batch_rows_length; exact Hk).
      rewrite batch_rows_length in HA.
      destruct (IH (n + length batch) (batch_builds n builds batch) n0
                  ltac:(lia) (batch_builds_bound _ _ _ _ Hn Hbuilds) _ _ _ HA Hdep)
        as (Hid & Hb & iA & HiA & Hcases).
      split; [lia | split; [lia |]].
      exists (S iA). rewrite HiA. split; [reflexivity |].
      destruct (Nat.lt_ge_cases b n) as [Hlt | Hge]; [now left | right].
      split; [exact Hge |].
      destruct (Nat.ltb_spec (b - n) (length batch)) as [Hin | Hout].
      * exists 0. split; [reflexivity | split; lia].
      * destruct Hcases as [Hbad | (_ & iB & HiB & Hle & Hstrict)]; [lia |].
        exists (S iB). replace (b - n - length batch) with (b - (n + length batch)) by lia.
        rewrite HiB. split; [reflexivity | split; [lia |]].
        intros Hwl. cbn [well_layered forallb] in Hwl.
        apply andb_true_iff in Hwl as [_ Hwl]. specialize (Hstrict Hwl). lia.
Qed.

(** For any list of lists of images: a build [A] created by
    [_record_batches] whose [dep_on] is set refers to a build [B] that the
    same call created before [A], from a batch whose index is at most that
    of [A]'s batch; and when no image has as parent an image placed before
    it in its own batch, the index of [B]'s batch is strictly smaller. *)
Lemma record_batches_depends_on_earlier (batches : list (list ContainerImage))
  (ev : BaseEvent) (table : list ArtifactBuild) (a : nat) (A : ArtifactBuild) (b : nat) :
  record_batches batches ev table !! a = Some A ->
  length table <= a ->
  dep_on A = Some b ->
  id A = a /\ length table <= b < a /\
  (exists B, record_batches batches ev table !! b = Some B /\ id B = b) /\
  exists iA iB,
    batch_index batches (a - length table) = Some iA /\
    batch_index batches (b - length table) = Some iB /\
    iB <= iA /\ (well_layered batches = true -> iB < iA).
Proof.
  intros HA Ha Hdep. rewrite record_batches_eq in *.
  rewrite lookup_app_r in HA by exact Ha.
  destruct (plan_rows_deps ev batches (length table) ∅ (length table)
              ltac:(lia) ltac:(intros p b'; rewrite lookup_empty; discriminate)
              _ _ _ HA Hdep) as (Hid & Hb & iA & HiA & Hcases).
  destruct Hcases as [Hbad | (_ & iB & HiB & Hle & Hstrict)]; [lia |].
  split; [lia | split; [lia | split]].
  - pose proof (lookup_lt_Some _ _ _ HA) as Hlen.
    destruct (lookup_lt_is_Some_2 (plan_rows ev (length table) ∅ batches)
                (b - length table) ltac:(lia)) as [B HB].
    exists B. rewrite lookup_app_r by lia. split; [exact HB |].
    apply plan_rows_id in HB. lia.
  - exists iA, iB. auto.
Qed.

Lemma independent_layered (batch : list ContainerImage) :
  independent batch = true -> layered batch = true.
Proof.
  unfold independent. intros H.
  assert (Hpair : forall image later,
             In image batch -> In later batch -> parent_is image later = false).
  { intros image later Himage Hlater. rewrite forallb_forall in H.
    specialize (H later Hlater). cbv beta in H. rewrite forallb_forall in H.
    specialize (H image Himage). cbv beta in H. now destruct (parent_is image later). }
  clear H. induction batch as [|first rest IH]; [reflexivity |].
  cbn [layered]. apply andb_true_iff. split.
  - apply forallb_forall. intros later Hlater.
    rewrite (Hpair first later); [reflexivity | now left | now right].
  - apply IH. intros image later Himage Hlater. apply Hpair; now right.
Qed.

Lemma batch_list_well_layered (batches : list (list ContainerImage)) :
  batch_list batches = true -> well_layered batches = true.
Proof.
  unfold batch_list, well_layered. rewrite !forallb_forall.
  intros H batch Hbatch. apply independent_layered. now apply H.
Qed.

(** C4: for every batch list (no image of a batch has another image of
    the same batch as its parent), every build [A] that [_record_batches]
    creates with [dep_on] set refers to a build [B] created by the same
    call from a batch of strictly smaller index than [A]'s batch. *)
Theorem record_batches_strictly_earlier_batch (batches : list (list ContainerImage))
  (ev : BaseEvent) (table : list ArtifactBuild) (a : nat) (A : ArtifactBuild) (b : nat) :
  batch_list batches = true ->
  record_batches batches ev table !! a = Some A ->
  length table <= a ->
  dep_on A = Some b ->
  length table <= b /\
  (exists B, record_batches batches ev table !! b = Some B /\ id B = b) /\
  exists iA iB,
    batch_index batches (a - length table) = Some iA /\
    batch_index batches (b - length table) = Some iB /\
    iB < iA.
Proof.
  intros Hbatches HA Ha Hdep.
  destruct (record_batches_depends_on_earlier batches ev table a A b HA Ha Hdep)
    as (_ & Hb & HB & iA & iB & HiA & HiB & _ & Hstrict).
  split; [lia | split; [exact HB |]].
  exists iA, iB. split; [exact HiA | split; [exact HiB |]].
  apply Hstrict. now apply batch_list_well_layered.
Qed.

Lemma record_batches_strictly_earlier_batch_witness :
  exists iA iB,
    batch_index [[Sample.X]; [Sample.Y]] 1 = Some iA /\
    batch_index [[Sample.X]; [Sample.Y]] 0 = Some iB /\
    iB < iA.
Proof.
  destruct (record_batches_strictly_earlier_batch
              [[Sample.X]; [Sample.Y]] Sample.ev [] 1
              (new_row Sample.ev 1 {[ "X-1-1" := 0 ]} Sample.Y) 0)
    as (_ & _ & iA & iB & HiA & HiB & Hlt).
  - reflexivity.
  - reflexivity.
  - cbn [length]. lia.
  - reflexivity.
  - exists iA, iB. split; [exact HiA | split; [exact HiB | exact Hlt]].
Defined.

(** The hypothesis is used: [[X; Y]], with [Y] after its parent [X] in one
    list, is not a batch list, and on it the build recorded for [Y] depends
    on the build recorded for [X] from the same list. *)
Example record_batches_same_batch_dependency :
  batch_list [[Sample.X; Sample.Y]] = false /\
  exists A B,
    record_batches [[Sample.X; Sample.Y]] Sample.ev [] !! 1 = Some A /\
    record_batches [[Sample.X; Sample.Y]] Sample.ev [] !! 0 = Some B /\
    name A = "Y-1-1" /\ name B = "X-1-1" /\
    dep_on A = Some (id B) /\
    batch_index [[Sample.X; Sample.Y]] (id A) = Some 0 /\
    batch_index [[Sample.X; Sample.Y]] (id B) = Some 0.
Proof.
  split; [reflexivity |].
  exists (new_row Sample.ev 1 {[ "X-1-1" := 0 ]} Sample.Y),
         (new_row Sample.ev 0 ∅ Sample.X).
  repeat split.
Qed.

(* ===================================================================== *)
(** * Further properties of the parser registry *)
(* ===================================================================== *)

Lemma dict_set_lookup (key : string) (p : BaseParser) (reg : registry) :
  registry_lookup key (dict_set key p reg) = Some p.
Proof.
  induction reg as [|[k q] reg IH]; cbn [dict_set registry_lookup].
  - now rewrite String.eqb_refl.
  - destruct (String.eqb_spec k key) as [-> | Hne]; cbn [registry_lookup].
    + now rewrite String.eqb_refl.
    + destruct (String.eqb_spec k key); [contradiction | exact IH].
Qed.

Lemma dict_set_lookup_other (key other : string) (p : BaseParser) (reg : registry) :
  other <> key ->
  registry_lookup other (dict_set key p reg) = registry_lookup other reg.
Proof.
  intros Hne. induction reg as [|[k q] reg IH]; cbn [dict_set registry_lookup].
  - destruct (String.eqb_spec key other); [congruence | reflexivity].
  - destruct (String.eqb_spec k key) as [-> | Hk]; cbn [registry_lookup].
    + destruct (String.eqb_spec key other); [congruence | reflexivity].
    + now rewrite IH.
Qed.

(** X1: after [register_parser], the registry holds the parser under its
    name, whatever was stored under that name before, and every other name
    is bound as it was. *)
Theorem register_parser_lookup (parser_class : BaseParser) (_parsers : registry) :
  registry_lookup (parser_name parser_class) (register_parser parser_class _parsers)
  = Some parser_class
  /\ forall other, other <> parser_name parser_class ->
       registry_lookup other (register_parser parser_class _parsers)
       = registry_lookup other _parsers.
Proof.
  unfold register_parser. split.
  - apply dict_set_lookup.
  - intros other Hne. now apply dict_set_lookup_other.
Qed.

Lemma dict_set_keys (key : string) (p : BaseParser) (reg : registry) :
  map fst (dict_set key p reg)
  = match registry_lookup key reg with
    | Some _ => map fst reg
    | None => map fst reg ++ [key]
    end.
Proof.
  induction reg as [|[k q] reg IH]; cbn [dict_set registry_lookup map fst app].
  - reflexivity.
  - destruct (String.eqb_spec k key) as [-> | Hne]; cbn [map fst].
    + reflexivity.
    + rewrite IH. now destruct (registry_lookup key reg).
Qed.

Lemma registry_lookup_None (key : string) (reg : registry) :
  registry_lookup key reg = None -> ~ In key (map fst reg).
Proof.
  induction reg as [|[k q] reg IH]; cbn [registry_lookup map fst]; [tauto |].
  destruct (String.eqb_spec k key) as [-> | Hne]; [discriminate |].
  intros H [Hk | Hin]; [contradiction | now apply IH].
Qed.

Lemma dict_set_new (key : string) (p : BaseParser) (reg : registry) :
  registry_lookup key reg = None -> dict_set key p reg = reg ++ [(key, p)].
Proof.
  induction reg as [|[k q] reg IH]; cbn [dict_set registry_lookup app]; [reflexivity |].
  destruct (String.eqb_spec k key); [discriminate |].
  intros H. now rewrite IH.
Qed.

Lemma dict_set_values_length (key : string) (p : BaseParser) (reg : registry) :
  length (dict_set key p reg)
  = match registry_lookup key reg with
    | Some _ => length reg
    | None => S (length reg)
    end.
Proof.
  rewrite <- (length_map fst), dict_set_keys.
  destruct (registry_lookup key reg); rewrite ?length_app, length_map; cbn; lia.
Qed.

(** X2: a name registered for the first time goes to the end of the
    registry; a name registered again keeps its place among the names, so
    the registry does not grow and the order in which [values()] yields the
    other parsers does not change. *)
Theorem register_parser_place (parser_class : BaseParser) (_parsers : registry) :
  match registry_lookup (parser_name parser_class) _parsers with
  | None =>
      register_parser parser_class _parsers
      = _parsers ++ [(parser_name parser_class, parser_class)]
  | Some _ =>
      map fst (register_parser parser_class _parsers) = map fst _parsers
      /\ length (values (register_parser parser_class _parsers))
         = length (values _parsers)
  end.
Proof.
  unfold register_parser, values.
  destruct (registry_lookup (parser_name parser_class) _parsers) eqn:E.
  - split.
    + now rewrite dict_set_keys, E.
    + now rewrite !length_map, dict_set_values_length, E.
  - now apply dict_set_new.
Qed.

Lemma registered_snoc (classes : list BaseParser) (p : BaseParser) :
  registered (classes ++ [p]) = register_parser p (registered classes).
Proof. unfold registered. now rewrite fold_left_app. Qed.

Lemma dict_set_names (key : string) (p : BaseParser) (reg : registry) :
  key = parser_name p ->
  Forall (fun kp => fst kp = parser_name (snd kp)) reg ->
  Forall (fun kp => fst kp = parser_name (snd kp)) (dict_set key p reg).
Proof.
  intros Hkey. induction 1 as [|[k q] reg Hk Hreg IH]; cbn [dict_set].
  - now repeat constructor.
  - destruct (String.eqb_spec k key) as [-> | Hne]; constructor;
      [exact Hkey | exact Hreg | exact Hk | exact IH].
Qed.

(** X3: in a registry built by [register_parser] alone no name occurs
    twice, and every parser is stored under its own name. *)
Theorem registered_names_unique (classes : list BaseParser) :
  List.NoDup (map fst (registered classes))
  /\ Forall (fun kp => fst kp = parser_name (snd kp)) (registered classes).
Proof.
  induction classes as [|p classes IH] using rev_ind.
  - split; constructor.
  - rewrite registered_snoc. destruct IH as [Hnodup Hnames].
    unfold register_parser. split; [|now apply dict_set_names].
    rewrite dict_set_keys.
    destruct (registry_lookup (parser_name p) (registered classes)) eqn:E;
      [exact Hnodup |].
    apply List.NoDup_app; [exact Hnodup | repeat constructor; intros [] |].
    intros k Hk [<- | []]. now apply registry_lookup_None in E.
Qed.

Lemma rstrip_snoc (c : ascii) (s : string) :
  rstrip c (s +:+ String c "") = rstrip c s.
Proof.
  induction s as [|a s IH].
  - rewrite append_nil. cbn [rstrip]. now rewrite Ascii.eqb_refl.
  - rewrite append_cons. cbn [rstrip]. now rewrite IH.
Qed.

Lemma rstrip_not_endswith (c : ascii) (s : string) :
  endswith (rstrip c s) (String c "") = false.
Proof.
  induction s as [|a s IH]; [reflexivity |].
  cbn [rstrip]. destruct (rstrip c s) as [|b r] eqn:E.
  - destruct (Ascii.eqb_spec a c) as [-> | Hne]; [reflexivity |].
    cbn [endswith]. rewrite orb_false_r. apply String.eqb_neq. congruence.
  - cbn [endswith] in *. rewrite IH. rewrite orb_false_r.
    apply String.eqb_neq. discriminate.
Qed.

Lemma list_prod_map_l {A B C : Type} (f : A -> C) (l : list A) (l' : list B) :
  list_prod (map f l) l' = map (fun ab => (f (fst ab), snd ab)) (list_prod l l').
Proof.
  induction l as [|a l IH]; [reflexivity |].
  cbn [map list_prod]. rewrite IH, map_app, map_map. reflexivity.
Qed.

(** X4: a dot at the end of a configured prefix makes no difference to the
    topics: [get_parsed_topics] gives the same list whether or not each
    prefix is written with a trailing dot. *)
Theorem get_parsed_topics_trailing_dot (_parsers : registry)
  (messaging_topic_prefix : list string) :
  get_parsed_topics _parsers (map (fun pref => pref +:+ ".") messaging_topic_prefix)
  = get_parsed_topics _parsers messaging_topic_prefix.
Proof.
  unfold get_parsed_topics. rewrite list_prod_map_l, map_map.
  apply map_ext. intros [pref cat]. cbn [fst snd].
  change "."%char with (ascii_of_nat 46). now rewrite rstrip_snoc.
Qed.

(** X5: every topic of [get_parsed_topics] is a stem that does not end in
    a dot, then one dot, then a suffix declared by a registered parser; and
    there is one topic for each pair of a prefix and a declared suffix. *)
Theorem get_parsed_topics_shape (_parsers : registry)
  (messaging_topic_prefix : list string) :
  Forall (fun t => exists stem suffix,
                     t = stem +:+ "." +:+ suffix /\
                     endswith stem "." = false /\
                     In suffix (flat_map topic_suffixes (values _parsers)))
         (get_parsed_topics _parsers messaging_topic_prefix)
  /\ length (get_parsed_topics _parsers messaging_topic_prefix)
     = length messaging_topic_prefix
       * length (flat_map topic_suffixes (values _parsers)).
Proof.
  unfold get_parsed_topics. split.
  - apply List.Forall_forall. intros t Ht.
    apply in_map_iff in Ht as [[pref cat] [<- Hin]].
    apply in_prod_iff in Hin as [_ Hcat].
    exists (rstrip "." pref), cat. split; [reflexivity | split; [|exact Hcat]].
    apply rstrip_not_endswith.
  - now rewrite length_map, length_prod.
Qed.

(** X6: whatever [from_fedmsg] returns other than [None] is what [parse]
    of a registered parser returned (or raised): the first parser, in
    registration order, whose [can_parse] is true. *)
Theorem from_fedmsg_comes_from_parser (_parsers : registry) (topic : string) (msg : pyval) :
  from_fedmsg _parsers topic msg <> Ok None ->
  exists before parser after,
    values _parsers = before ++ parser :: after /\
    Forall (fun q => can_parse q topic msg = false) before /\
    can_parse parser topic msg = true /\
    parse parser topic msg = from_fedmsg _parsers topic msg.
Proof.
  unfold from_fedmsg. induction (values _parsers) as [|q rest IH];
    cbn [from_fedmsg_loop]; [congruence |].
  destruct (can_parse q topic msg) eqn:Hq; cbn [negb].
  - intros _. exists [], q, rest. repeat split; [constructor | exact Hq].
  - intros H. destruct (IH H) as (before & parser & after & -> & Hbefore & Hcan & Hparse).
    exists (q :: before), parser, after. repeat split; auto.
Qed.

Lemma from_fedmsg_comes_from_parser_witness :
  exists parser,
    In parser (values git_and_testing_parsers) /\
    parse parser git_receive_topic (commit_payload "modules")
    = from_fedmsg git_and_testing_parsers git_receive_topic (commit_payload "modules").
Proof.
  destruct (from_fedmsg_comes_from_parser git_and_testing_parsers git_receive_topic
              (commit_payload "modules"))
    as (before & parser & after & Hvalues & _ & _ & Hparse).
  - discriminate.
  - exists parser. split; [|exact Hparse].
    rewrite Hvalues. apply in_or_app. right. now left.
Defined.

(* ===================================================================== *)
(** * Further properties of GitReceiveParser *)
(* ===================================================================== *)

(** X7: for a dict payload whose ['msg'] and ['commit'] are dicts and whose
    commit is in the ["modules"] namespace, [parse] produces a
    [ModuleMetadataUpdated] event with the payload's ['msg_id'], the
    commit's ['branch'] and the URL
    [git_base_url/modules/<repo>.git?#<rev>]; a missing ['msg_id'],
    ['branch'], ['repo'] or ['rev'] is not an error and comes out as
    [None]. *)
Theorem gr_parse_modules_commit (git_base_url : string) (repr : pyval -> string)
  (topic : string) (d m c : list (string * pyval)) :
  entry d "msg" = PDict m ->
  entry m "commit" = PDict c ->
  entry c "namespace" = PStr "modules" ->
  GitReceiveParser.parse git_base_url repr topic (PDict d)
  = Ok (Some (ModuleMetadataUpdated
                (entry d "msg_id")
                (git_base_url +:+ "/modules/" +:+ str repr (entry c "repo")
                   +:+ ".git?#" +:+ str repr (entry c "rev"))
                (entry c "branch"))).
Proof.
  intros Hm Hc Hn. rewrite gr_parse_dict, Hm.
  assert (Htm : truthy (PDict m) = true).
  { destruct m; [discriminate Hc | reflexivity]. }
  rewrite Htm. cbn [negb]. rewrite Hc.
  assert (Htc : truthy (PDict c) = true).
  { destruct c; [discriminate Hn | reflexivity]. }
  rewrite Htc. cbn [negb]. rewrite Hn. reflexivity.
Qed.

Lemma gr_parse_modules_commit_witness :
  GitReceiveParser.parse "git://pkgs.fedoraproject.org" repr_brackets git_receive_topic
    (PDict [("msg", PDict [("commit", PDict [("namespace", PStr "modules")])])])
  = Ok (Some (ModuleMetadataUpdated PNone
                "git://pkgs.fedoraproject.org/modules/None.git?#None" PNone)).
Proof.
  exact (gr_parse_modules_commit "git://pkgs.fedoraproject.org" repr_brackets
           git_receive_topic
           [("msg", PDict [("commit", PDict [("namespace", PStr "modules")])])]
           [("commit", PDict [("namespace", PStr "modules")])]
           [("namespace", PStr "modules")] eq_refl eq_refl eq_refl).
Defined.

(** X8: [parse] raises exactly on the malformed payloads, and what it
    raises is [AttributeError]: a payload that is not a dict, a ['msg']
    that is true in a condition but is not a dict, or a ['commit'] that is
    true in a condition but is not a dict. *)
Theorem gr_parse_raises_iff (git_base_url : string) (repr : pyval -> string)
  (topic : string) (payload : pyval) (e : exn) :
  GitReceiveParser.parse git_base_url repr topic payload = Raise e
  <-> e = AttributeError /\ malformed payload.
Proof.
  split.
  - intros H. destruct payload as [| | | | |d];
      try (injection H as <-; split; [reflexivity |];
           apply malformed_payload; intros d; discriminate).
    rewrite gr_parse_dict in H.
    destruct (truthy (entry d "msg")) eqn:Htm; [|discriminate]. cbn [negb] in H.
    destruct (entry d "msg") as [| | | | |m] eqn:Hm;
      try (injection H as <-; split; [reflexivity |];
           apply malformed_msg; [now rewrite Hm | rewrite Hm; intros m'; discriminate]).
    destruct (truthy (entry m "commit")) eqn:Htc; [|discriminate]. cbn [negb] in H.
    destruct (entry m "commit") as [| | | | |c] eqn:Hc;
      try (injection H as <-; split; [reflexivity |];
           eapply malformed_commit; [exact Hm | now rewrite Hc |
                                     rewrite Hc; intros c'; discriminate]).
    destruct (GitReceiveParser.is_modules (entry c "namespace")); discriminate.
  - intros [-> H]. destruct H as [v Hv | d Htm Hm | d m Hm Htc Hc].
    + destruct v; try reflexivity. now destruct (Hv d).
    + rewrite gr_parse_dict, Htm. cbn [negb].
      destruct (entry d "msg") as [| | | | |m]; try reflexivity. now destruct (Hm m).
    + rewrite gr_parse_dict, Hm.
      assert (Htm : truthy (PDict m) = true).
      { destruct m; [discriminate Htc | reflexivity]. }
      rewrite Htm, Htc. cbn [negb].
      destruct (entry m "commit") as [| | | | |c]; try reflexivity. now destruct (Hc c).
Qed.

(** X9: [parse] returns [None] only for the payloads it skips: a dict
    whose ['msg'] or whose ['commit'] is missing or false in a condition,
    or whose commit is a dict outside the ["modules"] namespace. *)
Theorem gr_parse_none_only_skipped (git_base_url : string) (repr : pyval -> string)
  (topic : string) (payload : pyval) :
  GitReceiveParser.parse git_base_url repr topic payload = Ok None ->
  skipped payload.
Proof.
  intros H. destruct payload as [| | | | |d]; try discriminate H.
  rewrite gr_parse_dict in H.
  destruct (truthy (entry d "msg")) eqn:Htm; [|now apply skip_msg]. cbn [negb] in H.
  destruct (entry d "msg") as [| | | | |m] eqn:Hm; try discriminate H.
  destruct (truthy (entry m "commit")) eqn:Htc; [|now apply (skip_commit d m)].
  cbn [negb] in H.
  destruct (entry m "commit") as [| | | | |c] eqn:Hc; try discriminate H.
  destruct (GitReceiveParser.is_modules (entry c "namespace")) eqn:E; [discriminate |].
  apply (skip_namespace d m c Hm Hc). intros Hn.
  apply is_modules_spec in Hn. congruence.
Qed.

Lemma gr_parse_none_only_skipped_witness :
  skipped (commit_payload "rpms").
Proof.
  apply (gr_parse_none_only_skipped "git://pkgs.fedoraproject.org" repr_brackets
           git_receive_topic (commit_payload "rpms")).
  reflexivity.
Defined.

Lemma gr_parse_some (git_base_url : string) (repr : pyval -> string)
  (topic : string) (payload : pyval) (e : BaseEvent) :
  GitReceiveParser.parse git_base_url repr topic payload = Ok (Some e) ->
  exists d m c,
    payload = PDict d /\ entry d "msg" = PDict m /\ entry m "commit" = PDict c /\
    entry c "namespace" = PStr "modules" /\
    e = ModuleMetadataUpdated
          (entry d "msg_id")
          (git_base_url +:+ "/modules/" +:+ str repr (entry c "repo")
             +:+ ".git?#" +:+ str repr (entry c "rev"))
          (entry c "branch").
Proof.
  intros H. destruct payload as [| | | | |d]; try discriminate H.
  rewrite gr_parse_dict in H.
  destruct (negb (truthy (entry d "msg"))); [discriminate |].
  destruct (entry d "msg") as [| | | | |m] eqn:Hm; try discriminate.
  destruct (negb (truthy (entry m "commit"))); [discriminate |].
  destruct (entry m "commit") as [| | | | |c] eqn:Hc; try discriminate.
  destruct (GitReceiveParser.is_modules (entry c "namespace")) eqn:E; [|discriminate].
  apply is_modules_spec in E. injection H as <-.
  exists d, m, c. rewrite E. repeat split; auto.
Qed.

(** X10: with [GitReceiveParser] as the only registered parser,
    [from_fedmsg] produces an event exactly for a topic ending in
    ["git.receive"] with a commit in the ["modules"] namespace; and for a
    topic that does not end in ["git.receive"] it returns [None] whatever
    the payload is, without raising. *)
Theorem from_fedmsg_git_receive_only (git_base_url : string) (repr : pyval -> string)
  (topic : string) (payload : pyval) :
  (forall e,
     from_fedmsg (registered [GitReceiveParser.new git_base_url repr]) topic payload
     = Ok (Some e)
     <-> (exists p, topic = p +:+ "git.receive") /\
         exists d m c,
           payload = PDict d /\ entry d "msg" = PDict m /\
           entry m "commit" = PDict c /\ entry c "namespace" = PStr "modules" /\
           e = ModuleMetadataUpdated
                 (entry d "msg_id")
                 (git_base_url +:+ "/modules/" +:+ str repr (entry c "repo")
                    +:+ ".git?#" +:+ str repr (entry c "rev"))
                 (entry c "branch"))
  /\ (endswith topic "git.receive" = false ->
      from_fedmsg (registered [GitReceiveParser.new git_base_url repr]) topic payload
      = Ok None).
Proof.
  assert (Hrun :
    from_fedmsg (registered [GitReceiveParser.new git_base_url repr]) topic payload
    = if endswith topic "git.receive"
      then GitReceiveParser.parse git_base_url repr topic payload
      else Ok None).
  { unfold from_fedmsg, registered. cbn. unfold GitReceiveParser.can_parse.
    cbn [existsb GitReceiveParser.topic_suffixes]. rewrite orb_false_r.
    now destruct (endswith topic "git.receive"). }
  rewrite Hrun. split.
  - intros e. rewrite <- endswith_spec. split.
    + destruct (endswith topic "git.receive"); [|discriminate].
      intros H. split; [reflexivity |].
      exact (gr_parse_some git_base_url repr topic payload e H).
    + intros [-> (d & m & c & -> & Hm & Hc & Hn & ->)].
      rewrite gr_parse_dict, Hm.
      destruct m as [|km m]; [discriminate Hc |]. cbn [truthy negb]. rewrite Hc.
      destruct c as [|kc c]; [discriminate Hn |]. cbn [truthy negb]. rewrite Hn.
      reflexivity.
  - now intros ->.
Qed.

(* ===================================================================== *)
(** * Further properties of the recorded plan *)
(* ===================================================================== *)

Lemma batch_builds_app (a b : list ContainerImage) :
  forall n builds,
    batch_builds n builds (a ++ b)
    = batch_builds (n + length a) (batch_builds n builds a) b.
Proof.
  induction a as [|image a IH]; intros n builds; cbn [app batch_builds length].
  - now rewrite Nat.add_0_r.
  - rewrite IH. now rewrite Nat.add_succ_r.
Qed.

Lemma batch_rows_app (ev : BaseEvent) (a b : list ContainerImage) :
  forall n builds,
    batch_rows ev n builds (a ++ b)
    = batch_rows ev n builds a
      ++ batch_rows ev (n + length a) (batch_builds n builds a) b.
Proof.
  induction a as [|image a IH]; intros n builds;
    cbn [app batch_rows batch_builds length].
  - now rewrite Nat.add_0_r.
  - rewrite IH. now rewrite Nat.add_succ_r.
Qed.

Lemma plan_rows_flat (ev : BaseEvent) (batches : list (list ContainerImage)) :
  forall n builds,
    plan_rows ev n builds batches = batch_rows ev n builds (concat batches).
Proof.
  induction batches as [|batch rest IH]; intros n builds; cbn [plan_rows concat].
  - reflexivity.
  - now rewrite batch_rows_app, IH.
Qed.

(** X11: the rows that [_record_batches] writes depend on the images and
    their order only, not on where one batch ends and the next begins:
    recording a batch list gives the same table as recording all its
    images as one batch. *)
Theorem record_batches_flat (batches : list (list ContainerImage)) (ev : BaseEvent)
  (table : list ArtifactBuild) :
  record_batches batches ev table = record_batches [concat batches] ev table.
Proof.
  rewrite !record_batches_eq, !plan_rows_flat. cbn [concat]. now rewrite app_nil_r.
Qed.

Lemma batch_rows_lookup (ev : BaseEvent) (imgs : list ContainerImage) :
  forall n builds k image,
    imgs !! k = Some image ->
    batch_rows ev n builds imgs !! k
    = Some (new_row ev (n + k) (batch_builds n builds (take k imgs)) image).
Proof.
  induction imgs as [|first rest IH]; intros n builds k image; [discriminate |].
  destruct k as [|k]; cbn [lookup list_lookup batch_rows take batch_builds].
  - intros [= ->]. now rewrite Nat.add_0_r.
  - intros H. rewrite (IH _ _ _ _ H). now rewrite Nat.add_succ_r.
Qed.

Lemma record_batches_lookup (batches : list (list ContainerImage)) (ev : BaseEvent)
  (table : list ArtifactBuild) (k : nat) (image : ContainerImage) :
  concat batches !! k = Some image ->
  record_batches batches ev table !! (length table + k)
  = Some (new_row ev (length table + k)
            (batch_builds (length table) ∅ (take k (concat batches))) image).
Proof.
  intros H. rewrite record_batches_eq, plan_rows_flat.
  rewrite lookup_app_r by lia.
  replace (length table + k - length table) with k by lia.
  now apply batch_rows_lookup.
Qed.

(** X12: the row recorded for the [k]-th image carries that image's build
    name, the type IMAGE, and in [build_args] the image's repository, its
    commit and the build name of its parent ([None] for a base image). *)
Theorem record_batches_row_of_image (batches : list (list ContainerImage))
  (ev : BaseEvent) (table : list ArtifactBuild) (k : nat) (image : ContainerImage) :
  concat batches !! k = Some image ->
  exists A d,
    record_batches batches ev table !! (length table + k) = Some A /\
    id A = length table + k /\ name A = brew_build image /\ type A = IMAGE /\
    build_args A = Some (PDict d) /\
    get (PDict d) "repository" = Ok (PStr (repository image)) /\
    get (PDict d) "commit" = Ok (PStr (commit image)) /\
    get (PDict d) "parent" = Ok (opt_str (parent_name image)).
Proof.
  intros H. eexists. eexists.
  split; [exact (record_batches_lookup batches ev table k image H) |].
  repeat split.
Qed.

Lemma record_batches_row_of_image_witness :
  exists A d,
    record_batches [[Sample.X]; [Sample.Y]] Sample.ev [] !! 1 = Some A /\
    name A = "Y-1-1" /\ build_args A = Some (PDict d) /\
    get (PDict d) "parent" = Ok (PStr "X-1-1").
Proof.
  destruct (record_batches_row_of_image [[Sample.X]; [Sample.Y]] Sample.ev [] 1 Sample.Y
              eq_refl) as (A & d & HA & _ & Hname & _ & Hargs & _ & _ & Hparent).
  exists A, d. repeat split; assumption.
Defined.

Lemma batch_builds_latest (p : string) (imgs : list ContainerImage) :
  forall n builds, batch_builds n builds imgs !! p = latest p n imgs (builds !! p).
Proof.
  induction imgs as [|image rest IH]; intros n builds; cbn [batch_builds latest].
  - reflexivity.
  - rewrite IH. f_equal.
    destruct (String.eqb_spec (brew_build image) p) as [-> | Hne].
    + apply lookup_insert_eq.
    + now apply lookup_insert_ne.
Qed.

Lemma latest_cases (p : string) (imgs : list ContainerImage) :
  forall n acc,
    match latest p n imgs acc with
    | Some b =>
        (exists j image,
            imgs !! j = Some image /\ brew_build image = p /\ b = n + j /\
            forall j' image', j < j' -> imgs !! j' = Some image' ->
                              brew_build image' <> p)
        \/ (acc = Some b /\
            forall j image, imgs !! j = Some image -> brew_build image <> p)
    | None =>
        acc = None /\ forall j image, imgs !! j = Some image -> brew_build image <> p
    end.
Proof.
  induction imgs as [|first rest IH]; intros n acc; cbn [latest].
  - destruct acc; [right |]; split; auto; intros j image; discriminate.
  - specialize (IH (S n) (if (brew_build first =? p)%string then Some n else acc)).
    destruct (latest p (S n) rest _) as [b|].
    + destruct IH as [(j & image & Hj & Hname & -> & Hlater) | [Hacc Hnone]].
      * left. exists (S j), image.
        split; [exact Hj | split; [exact Hname | split; [lia |]]].
        intros [|j'] image' Hlt Hj'; [lia |]. apply (Hlater j'); [lia | exact Hj'].
      * destruct (String.eqb_spec (brew_build first) p) as [Hp | Hp].
        -- injection Hacc as <-. left. exists 0, first.
           split; [reflexivity | split; [exact Hp | split; [lia |]]].
           intros [|j'] image' Hlt Hj'; [lia |]. now apply (Hnone j').
        -- right. split; [exact Hacc |].
           intros [|j] image Hj; [injection Hj as <-; exact Hp | now apply (Hnone j)].
    + destruct IH as [Hacc Hnone].
      destruct (String.eqb_spec (brew_build first) p) as [Hp | Hp]; [discriminate |].
      split; [exact Hacc |].
      intros [|j] image Hj; [injection Hj as <-; exact Hp | now apply (Hnone j)].
Qed.

(** X13: the build recorded for an image depends on the build recorded for
    the latest earlier image of the batch list that is its parent by build
    name; it depends on no build when it is a base image or when no
    earlier image of the batch list bears its parent's build name. *)
Theorem record_batches_dep_on_parent (batches : list (list ContainerImage))
  (ev : BaseEvent) (table : list ArtifactBuild) (k : nat) (image : ContainerImage)
  (A : ArtifactBuild) :
  concat batches !! k = Some image ->
  record_batches batches ev table !! (length table + k) = Some A ->
  match dep_on A with
  | Some b =>
      exists j parent_image,
        b = length table + j /\ j < k /\
        concat batches !! j = Some parent_image /\
        parent_name image = Some (brew_build parent_image) /\
        forall j' image', j < j' < k -> concat batches !! j' = Some image' ->
                          parent_name image <> Some (brew_build image')
  | None =>
      forall j image', j < k -> concat batches !! j = Some image' ->
                       parent_name image <> Some (brew_build image')
  end.
Proof.
  intros Himage HA. rewrite (record_batches_lookup _ _ _ _ _ Himage) in HA.
  injection HA as <-. cbn [dep_on new_row].
  destruct (parent_name image) as [p|]; [|intros; discriminate].
  rewrite batch_builds_latest, lookup_empty.
  pose proof (latest_cases p (take k (concat batches)) (length table) None) as Hcases.
  destruct (latest p (length table) (take k (concat batches)) None) as [b|].
  - destruct Hcases as [(j & parent_image & Hj & Hname & -> & Hlater) | [Hacc _]];
      [|discriminate].
    pose proof (lookup_lt_Some _ _ _ Hj) as Hlen. rewrite length_take in Hlen.
    exists j, parent_image. rewrite lookup_take_lt in Hj by lia.
    split; [reflexivity | split; [lia | split; [exact Hj | split; [now rewrite Hname |]]]].
    intros j' image' Hj' Himage' [= Hp]. apply (Hlater j' image'); [lia | | now symmetry].
    rewrite lookup_take_lt by lia. exact Himage'.
  - destruct Hcases as [_ Hnone]. intros j image' Hj Himage' [= Hp].
    apply (Hnone j image'); [|now symmetry].
    rewrite lookup_take_lt by lia. exact Himage'.
Qed.

Lemma record_batches_dep_on_parent_witness :
  exists A j parent_image,
    record_batches [[Sample.X]; [Sample.Y]] Sample.ev [] !! 1 = Some A /\
    dep_on A = Some j /\
    concat [[Sample.X]; [Sample.Y]] !! j = Some parent_image /\
    parent_name Sample.Y = Some (brew_build parent_image).
Proof.
  pose proof (record_batches_dep_on_parent [[Sample.X]; [Sample.Y]] Sample.ev [] 1
                Sample.Y (new_row Sample.ev 1 {[ "X-1-1" := 0 ]} Sample.Y)
                eq_refl eq_refl) as H.
  cbn [dep_on new_row] in H.
  change (parent_name Sample.Y) with (Some "X-1-1") in H.
  change ({[ "X-1-1" := 0 ]} !! "X-1-1") with (Some 0 : option nat) in H.
  destruct H as (j & parent_image & Hb & _ & Hj & Hparent & _).
  exists (new_row Sample.ev 1 {[ "X-1-1" := 0 ]} Sample.Y), j, parent_image.
  repeat split; try assumption.
  cbn [length] in Hb. cbn [dep_on new_row]. rewrite Hb. reflexivity.
Defined.

(* ===================================================================== *)
(** * Further properties of the handler *)
(* ===================================================================== *)

Lemma poll_break_inv (compose_url : string) (answers : list Z) :
  forall l r,
    poll compose_url answers = (Done Break, l, r) ->
    exists waiting, answers = waiting ++ 2%Z :: r /\ Forall in_progress waiting.
Proof.
  induction answers as [|state rest IH]; intros l r; cbn [poll]; [discriminate |].
  destruct (Z.eqb_spec state 0) as [-> | H0].
  { destruct (poll compose_url rest) as [[o l'] r'] eqn:E. intros [= -> <- ->].
    destruct (IH _ _ eq_refl) as (waiting & -> & Hwaiting).
    exists (0%Z :: waiting). split; [reflexivity |]. constructor; [now left | exact Hwaiting]. }
  destruct (Z.eqb_spec state 1) as [-> | H1].
  { destruct (poll compose_url rest) as [[o l'] r'] eqn:E. intros [= -> <- ->].
    destruct (IH _ _ eq_refl) as (waiting & -> & Hwaiting).
    exists (1%Z :: waiting). split; [reflexivity |]. constructor; [now right | exact Hwaiting]. }
  destruct (Z.eqb_spec state 4) as [-> | H4]; [discriminate |].
  destruct (Z.eqb_spec state 2) as [-> | H2]; [|discriminate].
  intros [= <- <-]. exists []. split; [reflexivity | constructor].
Qed.

Lemma poll_consumes_prefix (compose_url : string) (answers : list Z) :
  exists consumed, answers = consumed ++ snd (poll compose_url answers).
Proof.
  induction answers as [|state rest IH]; cbn [poll]; [now exists [] |].
  destruct IH as [consumed IH].
  destruct (poll compose_url rest) as [[o l] r]. cbn [snd] in IH.
  destruct (state =? 0)%Z; [exists (state :: consumed); cbn [snd app]; congruence |].
  destruct (state =? 1)%Z; [exists (state :: consumed); cbn [snd app]; congruence |].
  destruct (state =? 4)%Z; [now exists [state] |].
  destruct (state =? 2)%Z; now exists [state].
Qed.

Lemma filter_head {A : Type} (f : A -> bool) (l : list A) (x : A) (rest : list A) :
  List.filter f l = x :: rest ->
  exists before after,
    l = before ++ x :: after /\ Forall (fun y => f y = false) before /\ f x = true.
Proof.
  induction l as [|a l IH]; cbn [List.filter]; [discriminate |].
  destruct (f a) eqn:Ha.
  - intros [= -> <-]. exists [], l. repeat split; [constructor | exact Ha].
  - intros H. destruct (IH H) as (before & after & -> & Hbefore & Hx).
    exists (a :: before), after. repeat split; [constructor; assumption | exact Hx].
Qed.

Lemma filter_nil {A : Type} (f : A -> bool) (l : list A) :
  List.filter f l = [] <-> Forall (fun y => f y = false) l.
Proof.
  induction l as [|a l IH]; cbn [List.filter].
  - split; [constructor | reflexivity].
  - destruct (f a) eqn:Ha.
    + split; [discriminate | intros H; inversion H; congruence].
    + rewrite IH. split; [now constructor | now inversion 1].
Qed.

Lemma strip_snoc (c : ascii) (s : string) :
  strip c (s +:+ String c "") = strip c s.
Proof.
  unfold strip. induction s as [|a s IH].
  - rewrite append_nil. cbn [lstrip]. now rewrite Ascii.eqb_refl.
  - rewrite append_cons. cbn [lstrip]. destruct (Ascii.eqb a c); [exact IH |].
    rewrite <- append_cons. apply rstrip_snoc.
Qed.

Section Flow.

Variable advisories_from_event : BaseEvent -> list ErrataAdvisory.
Variable allow_build : ArtifactType -> string -> bool.
Variable builds_signed : Z -> bool.
Variable get_pulp_repository_ids : Z -> list string.
Variable get_content_set_by_repo_ids : list string -> list string.
Variable find_images_to_rebuild : string -> list string -> list (list ContainerImage).
Variable get_build_rpms : string -> option string -> list string.
Variable listTags : string -> list string.
Variable listTagged : string -> string -> list string.
Variable parse_NVR_name : string -> string.
Variable odcs_server_url : string.
Variable odcs_api_version : string.
Variable new_compose : string -> list string -> Z * string.
Variable set_iteration : list string -> list string.

Abbreviation eligible := (eligible_advisories advisories_from_event allow_build).
Abbreviation srpm_name := (_find_build_srpm_name get_build_rpms).
Abbreviation compose_source := (_get_compose_source listTags listTagged parse_NVR_name).
Abbreviation find_images :=
  (_find_images_to_rebuild advisories_from_event allow_build builds_signed
     get_pulp_repository_ids get_content_set_by_repo_ids find_images_to_rebuild
     get_build_rpms set_iteration).
Abbreviation prepare :=
  (_prepare_yum_repo get_build_rpms listTags listTagged parse_NVR_name
                     odcs_server_url odcs_api_version new_compose set_iteration).
Abbreviation handle_event :=
  (handle advisories_from_event allow_build builds_signed
     get_pulp_repository_ids get_content_set_by_repo_ids find_images_to_rebuild
     get_build_rpms listTags listTagged parse_NVR_name
     odcs_server_url odcs_api_version new_compose set_iteration).

(** X14: [_get_compose_source] returns a tag only if it is the first tag of
    the build whose name ends in ["-candidate"] and the latest build of the
    package in that tag is the build itself. *)
Theorem get_compose_source_sound (nvr tag : string) :
  compose_source nvr = Ok (Some tag) ->
  (exists before after,
      listTags nvr = before ++ tag :: after /\
      Forall (fun t => endswith t "-candidate" = false) before)
  /\ endswith tag "-candidate" = true
  /\ exists others, listTagged tag (parse_NVR_name nvr) = nvr :: others.
Proof.
  unfold _get_compose_source.
  destruct (List.filter _ (listTags nvr)) as [|first rest] eqn:Hfilter; [discriminate |].
  apply filter_head in Hfilter as (before & after & Htags & Hbefore & Hfirst).
  destruct (listTagged first (parse_NVR_name nvr)) as [|latest others] eqn:Hlatest;
    [discriminate |].
  destruct (String.eqb_spec latest nvr) as [-> | Hne]; [|discriminate].
  intros [= <-]. rewrite Hlatest. eauto 10.
Qed.

(** X15: [_get_compose_source] raises exactly when the build has no tag
    whose name ends in ["-candidate"], and what it raises is [IndexError]. *)
Theorem get_compose_source_raises_iff (nvr : string) (e : exn) :
  compose_source nvr = Raise e
  <-> e = IndexError /\ Forall (fun t => endswith t "-candidate" = false) (listTags nvr).
Proof.
  unfold _get_compose_source. rewrite <- filter_nil.
  destruct (List.filter _ (listTags nvr)) as [|first rest].
  - split; [now intros [= <-] | now intros [-> _]].
  - split; [|now intros [_ H]].
    destruct (listTagged first (parse_NVR_name nvr)) as [|latest others];
      [discriminate |].
    destruct (latest =? nvr)%string; discriminate.
Qed.

(** X16: the URL of the compose job does not depend on slashes around the
    configured server URL: one more slash at its end or at its beginning
    gives the same URL. *)
Theorem compose_url_slashes (compose_id : Z) :
  compose_url_of (odcs_server_url +:+ "/") odcs_api_version compose_id
  = compose_url_of odcs_server_url odcs_api_version compose_id
  /\ compose_url_of ("/" +:+ odcs_server_url) odcs_api_version compose_id
     = compose_url_of odcs_server_url odcs_api_version compose_id.
Proof.
  unfold compose_url_of. split.
  - change "/"%char with (ascii_of_nat 47). now rewrite strip_snoc.
  - reflexivity.
Qed.

Lemma find_images_run (ev : BaseEvent) (w : world) :
  exists l,
    find_images ev w
    = (match eligible ev with
       | [] => Done []
       | _ =>
           if negb (forallb (fun a => builds_signed (errata_id a)) (eligible ev))
           then Done []
           else match event_nvr ev with
                | Raise e => Raised e
                | Ok nvr =>
                    match srpm_name nvr with
                    | Raise e => Raised e
                    | Ok srpm =>
                        Done (find_images_to_rebuild srpm
                                (get_content_set_by_repo_ids
                                   (pulp_repo_ids get_pulp_repository_ids set_iteration
                                      (eligible ev))))
                    end
                end
       end,
       logged w l (compose_states w)).
Proof.
  unfold _find_images_to_rebuild, mbind, handler_bind, lift, logs, mret, handler_ret, logged.
  destruct (eligible ev) as [|a rest]; [eexists; reflexivity |].
  destruct (negb (forallb _ (a :: rest))); [eexists; reflexivity |].
  cbn [db log compose_states].
  destruct (event_nvr ev) as [nvr | e]; [|eexists; reflexivity].
  destruct (srpm_name nvr) as [srpm | e]; eexists; reflexivity.
Qed.

(** X17: [_find_images_to_rebuild] only reads and logs: however it ends,
    the builds table is as it was and no answer of the compose service has
    been consumed. *)
Theorem find_images_keeps_world (ev : BaseEvent) (w : world) :
  exists l, snd (find_images ev w) = logged w l (compose_states w).
Proof.
  destruct (find_images_run ev w) as [l Hl]. exists l. now rewrite Hl.
Qed.

(** X18: when [_find_images_to_rebuild] returns batches at all, there is
    an eligible advisory, every eligible advisory has all its builds signed,
    the event carries an NVR whose build has a source RPM, and the batches
    are the inventory's answer for that source RPM and the content sets of
    the merged repository ids. *)
Theorem find_images_sound (ev : BaseEvent) (w w' : world)
  (batches : list (list ContainerImage)) :
  find_images ev w = (Done batches, w') ->
  batches <> [] ->
  eligible ev <> []
  /\ forallb (fun a => builds_signed (errata_id a)) (eligible ev) = true
  /\ exists nvr srpm,
       event_nvr ev = Ok nvr /\ srpm_name nvr = Ok srpm /\
       batches = find_images_to_rebuild srpm
                   (get_content_set_by_repo_ids
                      (pulp_repo_ids get_pulp_repository_ids set_iteration (eligible ev))).
Proof.
  destruct (find_images_run ev w) as [l Hl]. rewrite Hl. clear Hl.
  destruct (eligible ev) as [|a rest] eqn:Hel; [intros [= <-]; congruence |].
  destruct (forallb _ (a :: rest)); cbn [negb]; [|intros [= <-]; congruence].
  destruct (event_nvr ev) as [nvr | e]; [|discriminate].
  destruct (srpm_name nvr) as [srpm | e] eqn:Hsrpm; [|discriminate].
  intros [= <-] _. split; [discriminate | split; [reflexivity |]].
  exists nvr, srpm. auto.
Qed.

Lemma prepare_run (ev : BaseEvent) (w : world) :
  exists l r, snd (prepare ev w) = logged w l r.
Proof.
  unfold _prepare_yum_repo, mbind, handler_bind, lift, logs, mret, handler_ret,
    wait_for_compose, logged.
  destruct (event_nvr ev) as [nvr | e]; [|exists [], (compose_states w); cbn;
                                           now rewrite app_nil_r; destruct w].
  destruct (compose_source nvr) as [[source |] | e].
  - destruct (new_compose source _) as [compose_id result_repo].
    cbn [db log compose_states].
    destruct (poll _ (compose_states w)) as [[o l] r].
    destruct o as [[|] | e |]; cbn [snd db log compose_states];
      repeat rewrite <- app_assoc; eexists; eexists; reflexivity.
  - eexists; eexists; reflexivity.
  - exists [], (compose_states w). cbn. rewrite app_nil_r. now destruct w.
Qed.

(** The world in which [handle] asks for the compose: the batches are
    logged and recorded. *)
Lemma handle_run (ev : BaseEvent) (w w1 : world) (batches : list (list ContainerImage)) :
  find_images ev w = (Done batches, w1) ->
  handle_event ev w
  = match batches with
    | [] => (Done [], logged w1 [info "Not find docker images to rebuild." []]
                        (compose_states w1))
    | _ =>
        let w3 := {| db := record_batches batches ev (db w1);
                     log := log w1 ++
                            info "Found docker images to rebuild in following order:" []
                              :: log_batches_from 0 batches;
                     compose_states := compose_states w1 |} in
        (match fst (prepare ev w3) with
         | Done _ => Done []
         | Raised e => Raised e
         | Polling => Polling
         end,
         snd (prepare ev w3))
    end.
Proof.
  intros Hfind. unfold handle, mbind, handler_bind. rewrite Hfind.
  destruct batches as [|batch rest]; [reflexivity |].
  unfold _log_batches, _record_batches, logs. cbn [db log compose_states].
  cbv zeta.
  destruct (_prepare_yum_repo _ _ _ _ _ _ _ _ ev _) as [o w4].
  now destruct o.
Qed.

Lemma handle_stops (ev : BaseEvent) (w w1 : world) :
  (forall e, find_images ev w = (Raised e, w1) -> handle_event ev w = (Raised e, w1))
  /\ (find_images ev w = (Polling, w1) -> handle_event ev w = (Polling, w1)).
Proof.
  unfold handle, mbind, handler_bind. split; [intros e|]; now intros ->.
Qed.

(** X19: [handle] records exactly the batches that
    [_find_images_to_rebuild] returned, before it asks for the compose: the
    rows are in the table whether the compose then succeeds, fails, raises
    or is still in progress; and for an empty list of batches the compose
    service is not consulted. *)
Theorem handle_records_the_plan (ev : BaseEvent) (w w1 : world)
  (batches : list (list ContainerImage)) :
  find_images ev w = (Done batches, w1) ->
  db (snd (handle_event ev w)) = record_batches batches ev (db w)
  /\ (batches = [] -> compose_states (snd (handle_event ev w)) = compose_states w).
Proof.
  intros Hfind. rewrite (handle_run _ _ _ _ Hfind).
  destruct (find_images_run ev w) as [l0 Hrun]. rewrite Hfind in Hrun.
  injection Hrun as _ ->. destruct batches as [|batch rest].
  - split; [reflexivity | intros _; reflexivity].
  - split; [|discriminate]. cbv zeta. cbn [snd].
    match goal with |- db (snd (_prepare_yum_repo _ _ _ _ _ _ _ _ ev ?w3)) = _ =>
      destruct (prepare_run ev w3) as (l & r & ->) end.
    reflexivity.
Qed.

(** X20: [handle] never changes or removes a row of the builds table or a
    record of the log, it only appends; and when it returns, it returns no
    follow-up event. *)
Theorem handle_only_appends (ev : BaseEvent) (w : world) :
  exists rows l,
    db (snd (handle_event ev w)) = db w ++ rows
    /\ log (snd (handle_event ev w)) = log w ++ l
    /\ match fst (handle_event ev w) with
       | Done evs => evs = []
       | _ => True
       end.
Proof.
  destruct (find_images_run ev w) as [l0 Hrun].
  destruct (find_images ev w) as [o w1] eqn:Hfind. injection Hrun as _ ->.
  destruct o as [batches | e |].
  - rewrite (handle_run _ _ _ _ Hfind). destruct batches as [|batch rest].
    + exists [], (l0 ++ [info "Not find docker images to rebuild." []]).
      cbn [fst snd logged db log]. rewrite app_nil_r, app_assoc. auto.
    + cbv zeta. cbn [fst snd].
      match goal with |- context [_prepare_yum_repo _ _ _ _ _ _ _ _ ev ?w3] =>
        destruct (prepare_run ev w3) as (l & r & Hw4);
        destruct (_prepare_yum_repo _ _ _ _ _ _ _ _ ev w3) as [o w4] end.
      cbn [snd] in Hw4. subst w4. cbn [fst snd logged db log].
      rewrite record_batches_eq. eexists. eexists.
      split; [reflexivity | split; [|now destruct o]].
      repeat rewrite <- app_assoc. reflexivity.
  - rewrite (proj1 (handle_stops ev w _) e Hfind).
    exists [], l0. cbn. rewrite app_nil_r. auto.
  - rewrite (proj2 (handle_stops ev w _) Hfind).
    exists [], l0. cbn. rewrite app_nil_r. auto.
Qed.

(** X21: when the advisories are eligible and signed but the build of the
    event has no source RPM, [handle] raises [ValueError] naming the build;
    nothing is recorded and the compose service is not consulted. *)
Theorem handle_without_srpm (msg_id : pyval) (nvr : string) (w : world) :
  eligible (BrewSignRPMEvent msg_id nvr) <> [] ->
  forallb (fun a => builds_signed (errata_id a)) (eligible (BrewSignRPMEvent msg_id nvr))
    = true ->
  get_build_rpms nvr (Some "src") = [] ->
  exists l,
    handle_event (BrewSignRPMEvent msg_id nvr) w
    = (Raised (ValueError ("Build " +:+ nvr +:+
                 " does not have a SRPM, although this should not happen in practice.")),
       logged w l (compose_states w)).
Proof.
  intros Hel Hsigned Hsrc.
  destruct (find_images_run (BrewSignRPMEvent msg_id nvr) w) as [l Hl].
  destruct (eligible (BrewSignRPMEvent msg_id nvr)) as [|a rest]; [congruence |].
  rewrite Hsigned in Hl. cbn [negb event_nvr] in Hl.
  unfold _find_build_srpm_name in Hl. rewrite Hsrc in Hl.
  exists l. now apply (proj1 (handle_stops _ w _)).
Qed.

(** X24: however [_prepare_yum_repo] ends, the builds table is as it was,
    the log has only grown, and the answers of the compose service that
    are left are the ones after those it has read. *)
Theorem prepare_keeps_table (ev : BaseEvent) (w : world) :
  exists l consumed,
    db (snd (prepare ev w)) = db w
    /\ log (snd (prepare ev w)) = log w ++ l
    /\ compose_states w = consumed ++ compose_states (snd (prepare ev w)).
Proof.
  unfold _prepare_yum_repo, mbind, handler_bind, lift, logs, mret, handler_ret,
    wait_for_compose.
  destruct (event_nvr ev) as [nvr | e];
    [|exists [], []; cbn; now rewrite app_nil_r].
  destruct (compose_source nvr) as [[source |] | e].
  - destruct (new_compose source _) as [compose_id result_repo].
    cbn [db log compose_states].
    match goal with |- context [poll ?url (compose_states w)] =>
      destruct (poll_consumes_prefix url (compose_states w)) as [consumed Hconsumed];
      destruct (poll url (compose_states w)) as [[o l] r] end.
    cbn [snd] in Hconsumed.
    destruct o as [[|] | e |]; cbn [snd db log compose_states];
      repeat rewrite <- app_assoc; eexists; exists consumed; auto.
  - eexists. exists []. cbn. auto.
  - exists [], []. cbn. now rewrite app_nil_r.
Qed.

(** X22: [_prepare_yum_repo] returns a repository only when the build is
    the latest in its candidate tag and the compose service, after
    answering 0 or 1 any number of times, answered 2; what it returns is
    the ['result_repo'] of the compose it requested, and the answers after
    that 2 are left unread. *)
Theorem prepare_repo_only_when_done (ev : BaseEvent) (w w' : world) (repo : string) :
  prepare ev w = (Done (Some repo), w') ->
  exists nvr source waiting,
    event_nvr ev = Ok nvr /\ compose_source nvr = Ok (Some source) /\
    compose_states w = waiting ++ 2%Z :: compose_states w' /\
    Forall in_progress waiting /\
    repo = snd (new_compose source
                  (_get_packages_for_compose get_build_rpms set_iteration nvr)).
Proof.
  unfold _prepare_yum_repo, mbind, handler_bind, lift, logs, mret, handler_ret,
    wait_for_compose.
  destruct (event_nvr ev) as [nvr | e] eqn:Hnvr; [|discriminate].
  destruct (compose_source nvr) as [[source |] | e] eqn:Hsource;
    [|discriminate | discriminate].
  destruct (new_compose source _) as [compose_id result_repo] eqn:Hnew.
  cbn [db log compose_states].
  destruct (poll _ (compose_states w)) as [[o l] r] eqn:Hpoll.
  destruct o as [[|] | e |]; try discriminate.
  intros [= <- <-]. cbn [compose_states].
  apply poll_break_inv in Hpoll as (waiting & Hstates & Hwaiting).
  exists nvr, source, waiting. rewrite Hnew.
  split; [reflexivity | split; [exact Hsource | split; [exact Hstates |]]].
  split; [exact Hwaiting | reflexivity].
Qed.

(** X23: the polling loop has no bound of its own: as long as the compose
    service answers 0 or 1, [_prepare_yum_repo] neither returns nor raises. *)
Theorem prepare_keeps_polling (msg_id : pyval) (nvr source : string) (w : world) :
  compose_source nvr = Ok (Some source) ->
  Forall in_progress (compose_states w) ->
  exists l, prepare (BrewSignRPMEvent msg_id nvr) w = (Polling, logged w l []).
Proof.
  intros Hsource Hstates.
  unfold _prepare_yum_repo, mbind, handler_bind, lift, logs, mret, handler_ret,
    wait_for_compose, logged.
  cbn [event_nvr]. rewrite Hsource.
  destruct (new_compose source _) as [compose_id result_repo].
  cbn [db log compose_states].
  rewrite <- (app_nil_r (compose_states w)), poll_in_progress by exact Hstates.
  cbn [poll]. repeat rewrite <- app_assoc. eexists. reflexivity.
Qed.

End Flow.

Lemma get_compose_source_sound_witness :
  (exists before after,
      Sample.listTags "bash-4.4-1.fc30" = before ++ "f30-candidate" :: after /\
      Forall (fun t => endswith t "-candidate" = false) before)
  /\ endswith "f30-candidate" "-candidate" = true
  /\ exists others,
       Sample.listTagged "f30-candidate" (Sample.parse_NVR_name "bash-4.4-1.fc30")
       = "bash-4.4-1.fc30" :: others.
Proof.
  exact (get_compose_source_sound Sample.listTags Sample.listTagged Sample.parse_NVR_name
           "bash-4.4-1.fc30" "f30-candidate" eq_refl).
Defined.

Lemma find_images_sound_witness :
  exists nvr srpm,
    event_nvr Sample.ev = Ok nvr /\
    _find_build_srpm_name Sample.get_build_rpms nvr = Ok srpm /\
    [[Sample.X]; [Sample.Y]]
    = Sample.find_images_to_rebuild srpm
        (Sample.get_content_set_by_repo_ids
           (pulp_repo_ids Sample.get_pulp_repository_ids Sample.last_inserted_last
              (eligible_advisories Sample.advisories_from_event Sample.allow_build
                 Sample.ev))).
Proof.
  destruct (find_images_sound Sample.advisories_from_event Sample.allow_build
              (fun _ => true) Sample.get_pulp_repository_ids
              Sample.get_content_set_by_repo_ids Sample.find_images_to_rebuild
              Sample.get_build_rpms Sample.last_inserted_last Sample.ev
              (MoreSamples.world_of [])
              (snd (MoreSamples.find_all_signed Sample.ev (MoreSamples.world_of [])))
              [[Sample.X]; [Sample.Y]])
    as (_ & _ & H).
  - reflexivity.
  - discriminate.
  - exact H.
Defined.

Lemma handle_records_the_plan_witness :
  db (snd (Sample.handle_all_signed Sample.ev (MoreSamples.world_of [0; 4]%Z)))
  = record_batches [[Sample.X]; [Sample.Y]] Sample.ev [].
Proof.
  exact (proj1 (handle_records_the_plan Sample.advisories_from_event Sample.allow_build
           (fun _ => true) Sample.get_pulp_repository_ids
           Sample.get_content_set_by_repo_ids Sample.find_images_to_rebuild
           Sample.get_build_rpms Sample.listTags Sample.listTagged Sample.parse_NVR_name
           Sample.odcs_server_url Sample.odcs_api_version Sample.new_compose
           Sample.last_inserted_last Sample.ev (MoreSamples.world_of [0; 4]%Z)
           (snd (MoreSamples.find_all_signed Sample.ev (MoreSamples.world_of [0; 4]%Z)))
           [[Sample.X]; [Sample.Y]] eq_refl)).
Defined.

Lemma handle_without_srpm_witness :
  exists l,
    MoreSamples.handle_no_srpm Sample.ev (MoreSamples.world_of [0; 2]%Z)
    = (Raised (ValueError ("Build " +:+ "bash-4.4-1.fc30" +:+
                 " does not have a SRPM, although this should not happen in practice.")),
       logged (MoreSamples.world_of [0; 2]%Z) l [0; 2]%Z).
Proof.
  apply (handle_without_srpm Sample.advisories_from_event Sample.allow_build
           (fun _ => true) Sample.get_pulp_repository_ids
           Sample.get_content_set_by_repo_ids Sample.find_images_to_rebuild
           MoreSamples.no_src_rpms Sample.listTags Sample.listTagged
           Sample.parse_NVR_name Sample.odcs_server_url Sample.odcs_api_version
           Sample.new_compose Sample.last_inserted_last (PStr "2020-1")
           "bash-4.4-1.fc30" (MoreSamples.world_of [0; 2]%Z)).
  - discriminate.
  - reflexivity.
  - reflexivity.
Defined.

Lemma prepare_repo_only_when_done_witness :
  exists waiting,
    [0; 1; 1; 2; 4]%Z = waiting ++ [2; 4]%Z /\ Forall in_progress waiting.
Proof.
  destruct (prepare_repo_only_when_done Sample.get_build_rpms Sample.listTags
              Sample.listTagged Sample.parse_NVR_name Sample.odcs_server_url
              Sample.odcs_api_version Sample.new_compose Sample.last_inserted_last
              Sample.ev (MoreSamples.world_of [0; 1; 1; 2; 4]%Z)
              (snd (Sample._prepare_yum_repo Sample.ev
                      (MoreSamples.world_of [0; 1; 1; 2; 4]%Z)))
              "https://odcs.localhost/repo/7" eq_refl)
    as (nvr & source & waiting & _ & _ & Hstates & Hwaiting & _).
  exists waiting. split; [exact Hstates | exact Hwaiting].
Defined.

Lemma prepare_keeps_polling_witness :
  exists l,
    Sample._prepare_yum_repo Sample.ev (MoreSamples.world_of [0; 1; 0]%Z)
    = (Polling, logged (MoreSamples.world_of [0; 1; 0]%Z) l []).
Proof.
  apply (prepare_keeps_polling Sample.get_build_rpms Sample.listTags Sample.listTagged
           Sample.parse_NVR_name Sample.odcs_server_url Sample.odcs_api_version
           Sample.new_compose Sample.last_inserted_last (PStr "2020-1")
           "bash-4.4-1.fc30" "f30-candidate" (MoreSamples.world_of [0; 1; 0]%Z)).
  - reflexivity.
  - repeat (constructor; [unfold in_progress; lia |]). constructor.
Defined.
